(** * MIR-lab data preparation: a shallow embedding of [Data_Prep_3.py] and
    [Data_Merge_Final.py]

    The two scripts turn aligned MIDI recordings into measure-relative note
    tables ([Data_Prep_3.py]) and pair every performance table with the score
    table of its piece ([Data_Merge_Final.py]).

    Conventions of the embedding.
    - Python floats are idealised as exact rationals ([Qc], the canonical
      rationals, so that [=] is Python's [==]); rounding error and overflow
      are outside the model. On Python numbers [/] raises
      [ZeroDivisionError] on a zero divisor.
    - The times of a [pretty_midi] note are [numpy.float64] scalars, and so
      is what is computed from them. Their arithmetic raises nothing: a
      division by zero gives an infinity or NaN. A [np.float64] is a
      rational, an infinity or NaN.
    - Python [int] is [Z]; list positions are [nat].
    - A function that can raise returns a [result]; [try ... except] is
      [try_except].
    - Files are replaced by their parsed content: an annotation file is the
      list of its lines, a score document the list of its measure elements, a
      CSV table the list of its rows. *)

From Stdlib Require Import QArith Qcanon Qround ZArith Lia Ascii String DecimalString DecimalPos DecimalZ.
From stdpp Require Import gmap strings list fin_maps sorting.
From Equations Require Import Equations.

(** ** The fragment of the Python runtime the scripts rely on *)

Module Py.

(** *** Exceptions *)

Inductive exn : Type :=
| IndexError
| KeyError
| ValueError
| TypeError
| AttributeError
| ZeroDivisionError.

#[global] Instance exn_eq_dec : EqDecision exn.
Proof. solve_decision. Defined.

Inductive result (A : Type) : Type :=
| Ok (a : A)
| Raise (e : exn).
Arguments Ok {A} a.
Arguments Raise {A} e.

#[global] Instance result_eq_dec {A} `{EqDecision A} : EqDecision (result A).
Proof. solve_decision. Defined.

#[global] Instance result_ret : MRet result := @Ok.
#[global] Instance result_bind : MBind result := λ A B f m,
  match m with
  | Ok a => f a
  | Raise e => Raise e
  end.

(** [try: body except (e1, e2, ...): handler]. *)
Definition try_except {A} (body : result A) (caught : list exn)
    (handler : result A) : result A :=
  match body with
  | Ok a => Ok a
  | Raise e => if bool_decide (e ∈ caught) then handler else Raise e
  end.

(** [try: body except: handler], the handler catching everything. *)
Definition try_except_all {A} (body : result A) (handler : A) : A :=
  match body with
  | Ok a => a
  | Raise _ => handler
  end.

(** [for x in xs: s = body(s, x)], stopping at the first exception. *)
Fixpoint for_each {A S} (body : S → A → result S) (xs : list A) (s : S)
    : result S :=
  match xs with
  | [] => Ok s
  | x :: xs' => s' ← body s x; for_each body xs' s'
  end.

(** *** Numbers *)

(** [x / y] on floats (and on ints, which [/] converts to floats). *)
Definition truediv (x y : Qc) : result Qc :=
  if decide (y = Q2Qc 0) then Raise ZeroDivisionError else Ok (x / y)%Qc.

Definition float_of_int (z : Z) : Qc := Q2Qc (inject_Z z).

(** [int(x)] on a float truncates towards zero. *)
Definition int_of_float (x : Qc) : Z := Z.quot (Qnum x) (Zpos (Qden x)).

(** Nearest integer, ties to the even one. *)
Definition round_half_even (q : Q) : Z :=
  let n := Qnum q in
  let d := Zpos (Qden q) in
  let f := (n / d)%Z in
  match (2 * (n mod d) ?= d)%Z with
  | Lt => f
  | Gt => (f + 1)%Z
  | Eq => if Z.even f then f else (f + 1)%Z
  end.

(** [round(x, ndigits)] on a float. *)
Definition round (x : Qc) (ndigits : nat) : Qc :=
  let s := Pos.pow 10 (Pos.of_nat ndigits) in
  match ndigits with
  | O => Q2Qc (inject_Z (round_half_even x))
  | S _ => Q2Qc (round_half_even (x * inject_Z (Zpos s)) # s)
  end.

(** [sum(xs)]: left to right, starting from [0]. *)
Definition sum (xs : list Qc) : Qc := fold_left Qcplus xs (Q2Qc 0).

(** *** Sequences *)

(** [a[i]] for a non-negative position. *)
Definition getitem {A} (a : list A) (i : nat) : result A :=
  match a !! i with
  | Some x => Ok x
  | None => Raise IndexError
  end.

(** [a[-1]]. *)
Definition getlast {A} (a : list A) : result A :=
  match last a with
  | Some x => Ok x
  | None => Raise IndexError
  end.

(** [range(start, stop)] over the integers. *)
Definition range (start stop : Z) : list Z :=
  (λ k : nat, (start + Z.of_nat k)%Z) <$> seq 0 (Z.to_nat (stop - start)).

(** A slice position: negative positions count from the end, and the
    result is clamped to the list. *)
Definition slice_index {A} (a : list A) (i : Z) : nat :=
  let n := Z.of_nat (length a) in
  Z.to_nat (Z.max 0 (Z.min n (if (i <? 0)%Z then i + n else i)%Z)).

(** [a[lo:hi]], [a[:hi]] and [a[lo:]]. *)
Definition slice {A} (a : list A) (lo hi : option Z) : list A :=
  let i := from_option (slice_index a) 0 lo in
  let j := from_option (slice_index a) (length a) hi in
  take (j - i) (drop i a).

(** The loop of [bisect.bisect_right]:
    [while lo < hi: mid = (lo + hi) // 2;
       if x < a[mid]: hi = mid else: lo = mid + 1]. *)
Equations? bisect_loop (a : list Qc) (x : Qc) (lo hi : nat) : nat
  by wf (hi - lo) lt :=
  bisect_loop a x lo hi with lt_dec lo hi => {
    | left _ with Qclt_le_dec x (nth ((lo + hi) / 2) a (Q2Qc 0)) => {
        | left _ := bisect_loop a x lo ((lo + hi) / 2);
        | right _ := bisect_loop a x ((lo + hi) / 2 + 1) hi };
    | right _ := lo }.
Proof.
  all: change (fst (Nat.divmod (lo + hi) 1 0 1)) with ((lo + hi) / 2);
    assert (lo ≤ (lo + hi) / 2) by (apply Nat.div_le_lower_bound; lia);
    assert ((lo + hi) / 2 < hi) by (apply Nat.Div0.div_lt_upper_bound; lia);
    lia.
Qed.

Definition bisect_right (a : list Qc) (x : Qc) : nat :=
  bisect_loop a x 0 (length a).

(** [sorted(xs)] on floats. *)
Definition sorted (xs : list Qc) : list Qc := merge_sort Qcle xs.

(** *** Strings *)

Definition digit_of_ascii (c : ascii) : option N :=
  let n := N_of_ascii c in
  if ((48 <=? n) && (n <=? 57))%N then Some (n - 48)%N else None.

(** ASCII white space, as removed by [str.strip] and ignored by [int]. *)
Definition is_space (c : ascii) : bool :=
  let n := N_of_ascii c in
  ((n =? 32) || ((9 <=? n) && (n <=? 13)))%N.

Fixpoint lstrip (l : list ascii) : list ascii :=
  match l with
  | c :: l' => if is_space c then lstrip l' else l
  | [] => []
  end.

Definition strip (l : list ascii) : list ascii :=
  rev (lstrip (rev (lstrip l))).

(** The digits of a decimal literal, where single underscores may separate
    digits; [seen] tells whether the previous character was a digit. *)
Fixpoint int_digits (l : list ascii) (acc : N) (seen : bool) : option N :=
  match l with
  | [] => if seen then Some acc else None
  | c :: l' =>
      if Ascii.eqb c "_" then
        if seen then int_digits l' acc false else None
      else
        match digit_of_ascii c with
        | Some d => int_digits l' (acc * 10 + d)%N true
        | None => None
        end
  end.

(** [int(s)] on an ASCII string, base 10: surrounding white space, an
    optional sign, digits. [None] is [ValueError]. *)
Definition int_of_string (s : string) : option Z :=
  match strip (list_ascii_of_string s) with
  | "-"%char :: l => (λ n, (- Z.of_N n)%Z) <$> int_digits l 0%N false
  | "+"%char :: l => Z.of_N <$> int_digits l 0%N false
  | l => Z.of_N <$> int_digits l 0%N false
  end.

(** [int(x)] where [x] is a string or [None]. *)
Definition int_of_text (x : option string) : result Z :=
  match x with
  | None => Raise TypeError
  | Some s =>
      match int_of_string s with
      | Some z => Ok z
      | None => Raise ValueError
      end
  end.

(** [str(z)], also the rendering of an int in an f-string. *)
Definition str_of_int (z : Z) : string :=
  NilZero.string_of_int (Z.to_int z).

(** [s.split(sep)] for a separator of one character. *)
Fixpoint split (sep : ascii) (s : string) : list string :=
  match s with
  | EmptyString => [EmptyString]
  | String c s' =>
      if Ascii.eqb c sep then EmptyString :: split sep s'
      else
        match split sep s' with
        | h :: t => String c h :: t
        | [] => [String c EmptyString]
        end
  end.

(** [sub in s]. *)
Fixpoint contains (sub s : string) : bool :=
  String.prefix sub s ||
  match s with
  | EmptyString => false
  | String _ s' => contains sub s'
  end.

End Py.

(** ** [numpy.float64] scalars *)

Module np.

(** A [numpy.float64]: a number, [inf], [-inf] or [nan]. There is no
    negative zero in the model: the divisor of the scripts that can be zero
    is the difference of two equal Python floats, which is [0.0]. *)
Inductive float64 : Type :=
| Num (q : Qc)
| Inf
| NegInf
| NaN.

#[global] Instance float64_eq_dec : EqDecision float64.
Proof. solve_decision. Defined.

(** [np.isfinite(x)] and [np.isnan(x)]. *)
Definition isfinite (x : float64) : bool :=
  match x with
  | Num _ => true
  | _ => false
  end.

Definition isnan (x : float64) : bool :=
  match x with
  | NaN => true
  | _ => false
  end.

(** The infinity with the sign of [q], [nan] for zero: what [inf * q] and
    [q / 0.0] are. *)
Definition inf_of_sign (q : Qc) : float64 :=
  if decide (Q2Qc 0 < q)%Qc then Inf
  else if decide (q < Q2Qc 0)%Qc then NegInf
  else NaN.

Definition neg (x : float64) : float64 :=
  match x with
  | Num q => Num (- q)
  | Inf => NegInf
  | NegInf => Inf
  | NaN => NaN
  end.

(** [x + y]: [inf + (-inf)] is [nan]. *)
Definition add (x y : float64) : float64 :=
  match x, y with
  | NaN, _ | _, NaN => NaN
  | Num a, Num b => Num (a + b)
  | Inf, NegInf | NegInf, Inf => NaN
  | Inf, _ | _, Inf => Inf
  | NegInf, _ | _, NegInf => NegInf
  end.

(** [x - y]: [inf - inf] is [nan]. *)
Definition sub (x y : float64) : float64 := add x (neg y).

(** [x * y]: [inf * 0.0] is [nan]. *)
Definition mul (x y : float64) : float64 :=
  match x, y with
  | NaN, _ | _, NaN => NaN
  | Num a, Num b => Num (a * b)
  | Inf, Num q | Num q, Inf => inf_of_sign q
  | NegInf, Num q | Num q, NegInf => inf_of_sign (- q)
  | Inf, Inf | NegInf, NegInf => Inf
  | Inf, NegInf | NegInf, Inf => NegInf
  end.

(** [x / y], with a [RuntimeWarning] and no exception on a zero divisor:
    [q / 0.0] is an infinity with the sign of [q], and [0.0 / 0.0] is
    [nan]. *)
Definition truediv (x y : float64) : float64 :=
  match x, y with
  | NaN, _ | _, NaN => NaN
  | Num a, Num b =>
      if decide (b = Q2Qc 0) then inf_of_sign a else Num (a / b)
  | Num _, (Inf | NegInf) => Num (Q2Qc 0)
  | Inf, Num b => if decide (b < Q2Qc 0)%Qc then NegInf else Inf
  | NegInf, Num b => if decide (b < Q2Qc 0)%Qc then Inf else NegInf
  | (Inf | NegInf), (Inf | NegInf) => NaN
  end.

(** [round(x, ndigits)]: an infinity and [nan] stay what they are. *)
Definition round (x : float64) (ndigits : nat) : float64 :=
  match x with
  | Num q => Num (Py.round q ndigits)
  | _ => x
  end.

(** [x <= y]: false as soon as one side is [nan]. *)
Definition le (x y : float64) : Prop :=
  match x, y with
  | NaN, _ | _, NaN => False
  | Num a, Num b => (a ≤ b)%Qc
  | NegInf, _ | _, Inf => True
  | _, _ => False
  end.

#[global] Instance le_dec : RelDecision le.
Proof. intros [a| | |] [b| | |]; simpl; apply _. Defined.

End np.

(** ** [pretty_midi], as far as [Data_Prep_3.py] uses it *)

Module pretty_midi.

(** A [pretty_midi.Note]: pitch, start and end time in seconds. The two
    times are [numpy.float64] scalars that are numbers. *)
Record Note : Type := { pitch : Z; start : Qc; end_ : Qc }.

#[global] Instance Note_eq_dec : EqDecision Note.
Proof. solve_decision. Defined.

(** A [pretty_midi.Instrument]: its notes, in file order. *)
Record Instrument : Type := { notes : list Note }.

#[global] Instance Instrument_eq_dec : EqDecision Instrument.
Proof. solve_decision. Defined.

Definition semis : list string :=
  ["C"; "C#"; "D"; "D#"; "E"; "F"; "F#"; "G"; "G#"; "A"; "A#"; "B"].

(** [note_number_to_name]: [semis[n % 12] + str(n // 12 - 1)]. *)
Definition note_number_to_name (note_number : Z) : string :=
  nth (Z.to_nat (note_number mod 12)) semis "" +:+
  Py.str_of_int (note_number / 12 - 1).

End pretty_midi.

(** ** [Data_Prep_3.py] *)

Module Data_Prep_3.
Import Py pretty_midi.

(** *** [load_downbeats] *)

(** A line of the annotation file: [parts] is [line.strip().split()] and
    [stamp] is [float(parts[0])], [None] when that raises [ValueError]. *)
Record ann_line : Type := { parts : list string; stamp : option Qc }.

Definition load_downbeats (lines : list ann_line) : list Qc :=
  let times :=
    fold_left (λ times line,
      match parts line !! 2 with
      | Some label =>
          if contains "db" label then
            match stamp line with
            | Some t => times ++ [t]
            | None => times
            end
          else times
      | None => times
      end) lines [Q2Qc 0] in
  sorted times.

(** *** [extract_time_signatures] *)

(** The [time] element of a measure: what [find('beats')] and
    [find('beat-type')] return ([None] when the child is absent), each with
    its [.text] ([None] for an element without text). *)
Record time_elem : Type :=
  { beats_elem : option (option string);
    beat_type_elem : option (option string) }.

(** A [measure] element: its [number] attribute and what
    [find('attributes/time')] returns. *)
Record measure_elem : Type :=
  { number : option string; attributes_time : option time_elem }.

(** [elem.text] where [elem] is the result of a [find]. *)
Definition text (elem : option (option string)) : result (option string) :=
  match elem with
  | Some t => Ok t
  | None => Raise AttributeError
  end.

Definition item_le (p q : Z * string) : Prop := (p.1 ≤ q.1)%Z.

#[global] Instance item_le_dec : RelDecision item_le.
Proof. intros p q. unfold item_le. apply _. Defined.

(** [root] is given by [root.findall('.//measure')], in document order. *)
Definition extract_time_signatures (root : list measure_elem)
    : result (list (Z * string)) :=
  ts_points ←
    for_each (λ ts_points measure,
      let num := number measure in
      let time_elem := attributes_time measure in
      match time_elem, num with
      | Some time_elem, Some num =>
          beats ← text (beats_elem time_elem);
          beat_type ← text (beat_type_elem time_elem);
          try_except
            (m ← int_of_text (Some num);
             b ← int_of_text beats;
             bt ← int_of_text beat_type;
             Ok (ts_points ++ [(m, str_of_int b +:+ "/" +:+ str_of_int bt)]))
            [ValueError; TypeError]
            (Ok ts_points)
      | _, _ => Ok ts_points
      end) root [];
  let unique : gmap Z string :=
    fold_left (λ unique '(m, sig),
      match unique !! m with
      | None => <[m := sig]> unique
      | Some _ => unique
      end) ts_points ∅ in
  let sorted_points := merge_sort item_le (map_to_list unique) in
  Ok sorted_points.

(** What [main] passes on as [ts_points]: the score document may be absent,
    or parsing it may raise; both leave the list empty. *)
Inductive score_file : Type :=
| NoFile
| Unparsable
| Parsed (root : list measure_elem).

Definition main_ts_points (xml_file : score_file) : list (Z * string) :=
  match xml_file with
  | NoFile => []
  | Unparsable => []
  | Parsed root => try_except_all (extract_time_signatures root) []
  end.

(** *** [extract_notes] *)

(** A row of the frame [extract_notes] returns. The onset and the offset
    are computed from the times of the note and are [numpy.float64]; the
    two boundaries of the measure are sums of Python floats. *)
Record note_record : Type :=
  { measure : Z;
    note : string;
    onset : np.float64;
    offset : np.float64;
    measure_start : Qc;
    measure_end : Qc }.

#[global] Instance note_record_eq_dec : EqDecision note_record.
Proof. solve_decision. Defined.

Definition sig_to_duration (ts : option string) : Qc :=
  match ts with
  | None => Q2Qc 2
  | Some ts =>
      try_except_all
        (match int_of_text ∘ Some <$> split "/" ts with
         | [beats; beat_type] =>
             beats ← beats;
             beat_type ← beat_type;
             q ← truediv (Q2Qc 4) (float_of_int beat_type);
             Ok (Q2Qc (60 / 120) * float_of_int beats * q)%Qc
         | _ => Raise ValueError
         end)
        (Q2Qc 2)
  end.

(** The inner loop over [reversed(ts_points)]: the first change point at or
    before [measure_num] replaces [last_sig]. *)
Definition effective_sig (ts_points : list (Z * string)) (measure_num : Z)
    (last_sig : string) : string :=
  match find (λ p, bool_decide (p.1 ≤ measure_num)%Z) (reverse ts_points) with
  | Some (_, s) => s
  | None => last_sig
  end.

(** The loop that fills [sig_map]; [last_sig] lives across its rounds. *)
Definition sig_map_loop (ts_points : list (Z * string)) (n : nat)
    : string * gmap Z Qc :=
  fold_left (λ '(last_sig, sig_map) i,
    let measure_num := (i + 1)%Z in
    let last_sig := effective_sig ts_points measure_num last_sig in
    (last_sig, <[measure_num := sig_to_duration (Some last_sig)]> sig_map))
    (range 0 (Z.of_nat n)) ("4/4", ∅).

Definition intervals (downbeats : list Qc) : list Qc :=
  (λ i : nat, nth (i + 1) downbeats (Q2Qc 0) - nth i downbeats (Q2Qc 0))%Qc
    <$> seq 0 (length downbeats - 1).

Definition end_times (downbeats : list Qc) : result (list Qc) :=
  let last_interval := default (Q2Qc 0) (last (intervals downbeats)) in
  last_downbeat ← getlast downbeats;
  Ok (drop 1 downbeats ++ [last_downbeat + last_interval]%Qc).

(** [sig_map.get(m, 2.0)]. *)
Definition sig_map_get (sig_map : gmap Z Qc) (m : Z) : Qc :=
  default (Q2Qc 2) (sig_map !! m).

(** The measure position of an onset: [bisect_right(downbeats, onset) - 1]. *)
Definition measure_idx (downbeats : list Qc) (onset : Qc) : Z :=
  (Z.of_nat (bisect_right downbeats onset) - 1)%Z.

(** The body of the loop over the notes: [None] is [continue], [Some] the
    record appended. The onset and the offset of the note are
    [numpy.float64], and so are their differences with [real_start], a
    Python float; the divisions are numpy's and raise nothing. *)
Definition note_body (downbeats end_times : list Qc) (sig_map : gmap Z Qc)
    (n : Note) : result (option note_record) :=
  let onset := start n in
  let offset := end_ n in
  let idx := measure_idx downbeats onset in
  if bool_decide (idx < 0 ∨ Z.of_nat (length end_times) ≤ idx)%Z then Ok None
  else
    real_start ← getitem downbeats (Z.to_nat idx);
    real_end ← getitem end_times (Z.to_nat idx);
    let real_duration := (real_end - real_start)%Qc in
    let norm_duration := sig_map_get sig_map (idx + 1) in
    let rel_onset :=
      np.truediv (np.sub (np.Num onset) (np.Num real_start))
        (np.Num real_duration) in
    let rel_offset :=
      np.truediv (np.sub (np.Num offset) (np.Num real_start))
        (np.Num real_duration) in
    let norm_onset := np.mul rel_onset (np.Num norm_duration) in
    let norm_offset := np.mul rel_offset (np.Num norm_duration) in
    let measure_num := (idx + 1)%Z in
    let measure_start := sum (sig_map_get sig_map <$> range 1 measure_num) in
    let measure_end := (measure_start + norm_duration)%Qc in
    Ok (Some {| measure := measure_num;
                note := note_number_to_name (pitch n);
                onset := np.round (np.add norm_onset (np.Num measure_start)) 5;
                offset :=
                  np.round (np.add norm_offset (np.Num measure_start)) 5;
                measure_start := round measure_start 5;
                measure_end := round measure_end 5 |}).

(** The order [sort_values] sorts by: [r1] may come before [r2] when its
    onset is at most that of [r2], or when the onset of [r2] is [nan]
    (pandas' [na_position='last']). *)
Definition onset_le (r1 r2 : note_record) : Prop :=
  onset r2 = np.NaN ∨ np.le (onset r1) (onset r2).

#[global] Instance onset_le_dec : RelDecision onset_le.
Proof. intros r1 r2. unfold onset_le. apply _. Defined.

(** [pd.DataFrame(records).sort_values(by='onset').reset_index(drop=True)].
    A frame built from an empty list has no columns, so sorting it by
    ['onset'] raises [KeyError]. The rows whose onset is not [nan] are
    sorted and the other rows follow them in their order of arrival. The
    order of rows with equal onsets is left open by pandas (its default
    sort is not stable); the model has the order [merge_sort] gives them,
    and no statement rests on it. *)
Definition sort_values_by_onset (records : list note_record)
    : result (list note_record) :=
  match records with
  | [] => Raise KeyError
  | _ =>
      Ok (merge_sort onset_le
            (filter (λ r, onset r ≠ np.NaN) records)
          ++ filter (λ r, onset r = np.NaN) records)
  end.

(** [extract_notes], from the downbeats on. *)
Definition extract_notes_from (downbeats : list Qc) (pm : list Instrument)
    (ts_points : list (Z * string)) : result (list note_record) :=
  end_times ← end_times downbeats;
  let sig_map := (sig_map_loop ts_points (length downbeats)).2 in
  records ←
    for_each (λ records inst,
      for_each (λ records n,
        r ← note_body downbeats end_times sig_map n;
        Ok (match r with
            | Some rec => records ++ [rec]
            | None => records
            end)) (notes inst) records) pm [];
  sort_values_by_onset records.

(** [pm] is [pm.instruments] of the MIDI file and [annotation] the lines of
    the annotation file. *)
Definition extract_notes (pm : list Instrument) (annotation : list ann_line)
    (ts_points : list (Z * string)) : result (list note_record) :=
  extract_notes_from (load_downbeats annotation) pm ts_points.

(** *** [assign_time_signature] *)

(** A row of the table written for a MIDI file: the columns of
    [extract_notes] and the [time_signature] column. *)
Record table_row : Type :=
  { cols :> note_record; time_signature : option string }.

#[global] Instance table_row_eq_dec : EqDecision table_row.
Proof. solve_decision. Defined.

(** The loop of [get_sig]. *)
Fixpoint get_sig_loop (ts_points : list (Z * string)) (m : Z) (sig : string)
    : string :=
  match ts_points with
  | [] => sig
  | (m0, s) :: ts_points' =>
      if bool_decide (m0 ≤ m)%Z then get_sig_loop ts_points' m s else sig
  end.

Definition assign_time_signature (df : list note_record)
    (ts_points : list (Z * string)) : list table_row :=
  match ts_points with
  | [] => (λ r, {| cols := r; time_signature := None |}) <$> df
  | (_, sig0) :: _ =>
      (λ r, {| cols := r;
               time_signature :=
                 Some (get_sig_loop ts_points (measure r) sig0) |}) <$> df
  end.

(** What [main] does for one MIDI file with its annotation file: the table
    written, or the exception reported for that file. *)
Definition main_table (xml_file : score_file) (pm : list Instrument)
    (annotation : list ann_line) : result (list table_row) :=
  let ts_points := main_ts_points xml_file in
  df ← extract_notes pm annotation ts_points;
  Ok (assign_time_signature df ts_points).

End Data_Prep_3.

(** ** [Data_Merge_Final.py] *)

Module Data_Merge_Final.
Import Py Data_Prep_3.

(** *** Configuration *)

Definition TRAIN_SPLIT : Qc := Q2Qc 0.5.
Definition TEST_SPLIT : Qc := Q2Qc 0.4.

Definition force_test_pieces : list string :=
  ["Bach/Prelude/bwv_880";
   "Brahms/Six_Pieces_op_118/2";
   "Chopin/Barcarolle";
   "Haydn/Keyboard_Sonatas/39-3";
   "Liszt/Ballade_2";
   "Mozart/Piano_Sonatas/12-1";
   "Prokofiev/Toccata";
   "Rachmaninoff/Preludes_op_32/10";
   "Schubert/Impromptu_op.90_D.899/2";
   "Schumann/Kreisleriana/3"].

(** *** The split into train, test and validation pieces *)

Record partition : Type :=
  { train_pieces : list string;
    test_pieces : list string;
    val_pieces : list string }.

Section Split.

(** [os.path.normpath], and [random.shuffle] under the seed in force: the
    split is stated for whatever they compute. *)
Variable normpath : string → string.
Variable shuffle : list string → list string.

(** The statements from [all_pieces = list(piece_to_files.keys())] to
    [val_pieces], with the two proportions, the force list and the keys of
    [piece_to_files] as inputs. *)
Definition split_pieces (TRAIN_SPLIT TEST_SPLIT : Qc)
    (force_test_pieces keys : list string) : partition :=
  let all_pieces := shuffle keys in
  let normalized_forced : gset string :=
    list_to_set (normpath <$> force_test_pieces) in
  let remaining_pieces :=
    filter (λ p, normpath p ∉ normalized_forced) all_pieces in
  let n := Z.of_nat (length remaining_pieces) in
  let n_train := int_of_float (float_of_int n * TRAIN_SPLIT) in
  let n_test := int_of_float (float_of_int n * TEST_SPLIT) in
  {| train_pieces := slice remaining_pieces None (Some n_train);
     test_pieces :=
       force_test_pieces ++
       slice remaining_pieces (Some n_train) (Some (n_train + n_test)%Z);
     val_pieces := slice remaining_pieces (Some (n_train + n_test)%Z) None |}.

End Split.

(** [chain.from_iterable(piece_to_files[p] for p in pieces
      if p in piece_to_files)]. *)
Definition files_of (piece_to_files : gmap string (list string))
    (pieces : list string) : list string :=
  p ← pieces; default [] (piece_to_files !! p).

(** *** [merge_perf_pure] *)

(** A row of the frame [merge_perf_pure] returns, with its keys ['perf_csv'],
    ['measure'], ['x'] and ['y']; the two lists are kept as lists, before
    [json.dumps] prints them. *)
Record merged_record : Type :=
  { rec_perf_csv : string;
    rec_measure : Z;
    rec_x : list (string * np.float64 * np.float64 * Qc);
    rec_y : list (string * np.float64 * np.float64) }.

#[global] Instance merged_record_eq_dec : EqDecision merged_record.
Proof. solve_decision. Defined.

(** [df[df['measure'] == m]]. *)
Definition section_of (df : list table_row) (m : Z) : list table_row :=
  filter (λ row : table_row, measure row = m) df.

(** [sorted(set(perf_df['measure']).intersection(pure_df['measure']))]. *)
Definition common_measures (perf_df pure_df : list table_row) : list Z :=
  let perf_measures : gset Z := list_to_set (measure ∘ cols <$> perf_df) in
  let pure_measures : gset Z := list_to_set (measure ∘ cols <$> pure_df) in
  merge_sort Z.le (elements (perf_measures ∩ pure_measures)).

(** [perf_df] is the table read from [perf_csv]; [pure_df] the table read
    from [midi_score.csv] in the same directory, [None] when that file does
    not exist. *)
Definition merge_perf_pure (perf_csv : string) (perf_df : list table_row)
    (pure_df : option (list table_row)) : result (list merged_record) :=
  match pure_df with
  | None => Ok []
  | Some pure_df =>
      let measures := common_measures perf_df pure_df in
      for_each (λ records m,
        let perf_sec := section_of perf_df m in
        let pure_sec := section_of pure_df m in
        measure_start ← getitem (measure_start ∘ cols <$> perf_sec) 0;
        measure_end ← getitem (measure_end ∘ cols <$> perf_sec) 0;
        let measure_dur := (measure_end - measure_start)%Qc in
        let x_list :=
          (λ row : table_row,
             let rel_onset := np.sub (onset row) (np.Num measure_start) in
             let duration := np.sub (offset row) (onset row) in
             (note row, rel_onset, duration, measure_dur)) <$> perf_sec in
        let y_list :=
          (λ row : table_row,
             let rel_onset := np.sub (onset row) (np.Num measure_start) in
             let rel_offset := np.sub (offset row) (np.Num measure_start) in
             (note row, rel_onset, rel_offset)) <$> pure_sec in
        Ok (records ++ [{| rec_perf_csv := perf_csv;
                           rec_measure := m;
                           rec_x := x_list;
                           rec_y := y_list |}])) measures []
  end.

End Data_Merge_Final.

(** ** Vocabulary of the statements and sample inputs *)

Import Py pretty_midi Data_Prep_3 Data_Merge_Final.

(** The merged row of measure [m] in the frame of the row [first]. *)
Definition merged_in_frame (perf_csv : string) (perf_df pure_df : list table_row)
    (first : table_row) (m : Z) : merged_record :=
  {| rec_perf_csv := perf_csv;
     rec_measure := m;
     rec_x :=
       (λ row : table_row,
          (note row, np.sub (onset row) (np.Num (measure_start first)),
           np.sub (offset row) (onset row),
           (measure_end first - measure_start first)%Qc))
         <$> section_of perf_df m;
     rec_y :=
       (λ row : table_row,
          (note row, np.sub (onset row) (np.Num (measure_start first)),
           np.sub (offset row) (np.Num (measure_start first))))
         <$> section_of pure_df m |}.

(** The time [extract_notes] writes for the time [t] of a note in the
    measure that runs from [real_start] to [real_end], has the normalized
    duration [norm_duration] and starts at [m_start] in the table. *)
Definition normalized_time (t real_start real_end norm_duration m_start : Qc)
    : np.float64 :=
  np.round
    (np.add
       (np.mul
          (np.truediv (np.sub (np.Num t) (np.Num real_start))
             (np.Num (real_end - real_start)))
          (np.Num norm_duration))
       (np.Num m_start)) 5.

Definition downbeats_024 : list Qc := [Q2Qc 0; Q2Qc 2; Q2Qc 4].

(** An annotation file with downbeats at 2.0 and 4.0 and a beat between
    them. *)
Definition annotation_024 : list ann_line :=
  [{| parts := ["2.000"; "2.000"; "db,4/4,0"]; stamp := Some (Q2Qc 2) |};
   {| parts := ["3.000"; "3.000"; "b"]; stamp := Some (Q2Qc 3) |};
   {| parts := ["4.000"; "4.000"; "db"]; stamp := Some (Q2Qc 4) |}].

Definition note_at (p : Z) (on off : Q) : Note :=
  {| pitch := p; start := Q2Qc on; end_ := Q2Qc off |}.

Definition record_at (m : Z) (pitch_name : string) (on off m_start m_end : Q)
    : note_record :=
  {| measure := m; note := pitch_name;
     onset := np.Num (Q2Qc on); offset := np.Num (Q2Qc off);
     measure_start := Q2Qc m_start; measure_end := Q2Qc m_end |}.

Definition pm_three_measures : list Instrument :=
  [{| notes := [note_at 60 0.5 1; note_at 64 2.5 3] |};
   {| notes := [note_at 67 5 5.5] |}].

(** The columns of a table row that the merge reads. *)
Definition row_at (m : Z) (pitch_name : string) (on off m_start m_end : Q)
    : table_row :=
  {| cols := {| measure := m; note := pitch_name;
                onset := np.Num (Q2Qc on); offset := np.Num (Q2Qc off);
                measure_start := Q2Qc m_start; measure_end := Q2Qc m_end |};
     time_signature := Some "4/4" |}.

Definition perf_table_1235 : list table_row :=
  [row_at 1 "C4" 0.5 1 0 2; row_at 2 "D4" 2.5 3 2 4; row_at 3 "E4" 4 5 4 6;
   row_at 3 "G4" 4.5 5.5 4 6; row_at 5 "F4" 8 9 8 10].

Definition pure_table_134 : list table_row :=
  [row_at 1 "C4" 0 1 0 2; row_at 3 "E4" 4 4.5 4 6; row_at 3 "G4" 4.5 5 4 6;
   row_at 4 "A4" 6 7 6 8].

Definition time_of (beats beat_type : string) : option time_elem :=
  Some {| beats_elem := Some (Some beats);
          beat_type_elem := Some (Some beat_type) |}.

Definition measure_1_common_time : measure_elem :=
  {| number := Some "1"; attributes_time := time_of "4" "4" |}.

Definition measure_2_no_beats : measure_elem :=
  {| number := Some "2";
     attributes_time :=
       Some {| beats_elem := None; beat_type_elem := Some (Some "4") |} |}.

Definition measure_2_bad_beats : measure_elem :=
  {| number := Some "2"; attributes_time := time_of "three" "4" |}.

Definition measure_2_empty_beats : measure_elem :=
  {| number := Some "2";
     attributes_time :=
       Some {| beats_elem := Some None; beat_type_elem := Some (Some "4") |} |}.

Definition measure_3_waltz : measure_elem :=
  {| number := Some "3"; attributes_time := time_of "3" "4" |}.

(** The change point a measure stands for, when its number, its beats and
    its beat type all read as integers. *)
Definition measure_point (measure : measure_elem) : option (Z * string) :=
  match attributes_time measure, number measure with
  | Some time_elem, Some num =>
      m ← int_of_string num;
      b ← mjoin (beats_elem time_elem) ≫= int_of_string;
      u ← mjoin (beat_type_elem time_elem) ≫= int_of_string;
      Some (m, str_of_int b +:+ "/" +:+ str_of_int u)
  | _, _ => None
  end.

(** Whether the [time] element that [extract_time_signatures] looks at in a
    measure, if any, has both a [beats] and a [beat-type] child. *)
Definition time_is_complete (measure : measure_elem) : bool :=
  match attributes_time measure, number measure with
  | Some time_elem, Some _ =>
      bool_decide (is_Some (beats_elem time_elem)) &&
      bool_decide (is_Some (beat_type_elem time_elem))
  | _, _ => true
  end.

(** * Properties *)

(** ** Loops and slices *)

Section Loops.

Context {A S : Type}.

(** A loop whose body only appends one computed row per round. *)
Lemma for_each_collect {B} (body : list B → A → result (list B))
    (row : A → B) (xs : list A) (acc : list B) :
  (∀ records x, x ∈ xs → body records x = Ok (records ++ [row x])) →
  for_each body xs acc = Ok (acc ++ (row <$> xs)).
Proof.
  revert acc. induction xs as [|x xs IH]; intros acc Hbody; simpl.
  - by rewrite app_nil_r.
  - rewrite Hbody by left. simpl. rewrite IH.
    + by rewrite <- app_assoc.
    + intros records y Hy. apply Hbody. by right.
Qed.

(** A loop raises [e] as soon as one round does, when no round can raise
    anything else. *)
Lemma for_each_raises (body : S → A → result S) (e : exn) (xs : list A)
    (x : A) (s : S) :
  x ∈ xs →
  (∀ s' y e', y ∈ xs → body s' y = Raise e' → e' = e) →
  (∀ s', body s' x = Raise e) →
  for_each body xs s = Raise e.
Proof.
  intros Hx Honly Hraise. revert s.
  induction xs as [|y xs IH]; intros s; [by apply elem_of_nil in Hx|].
  simpl. destruct (body s y) as [s'|e'] eqn:Hy; simpl.
  - apply elem_of_cons in Hx as [->|Hx].
    + by rewrite Hraise in Hy.
    + apply IH; [done|]. intros s'' z e'' Hz. apply Honly. by right.
  - f_equal. eapply Honly; [|exact Hy]. by left.
Qed.

(** What a loop raises, one of its rounds raised. *)
Lemma for_each_raise_inv (body : S → A → result S) (e : exn) (xs : list A)
    (s : S) :
  for_each body xs s = Raise e → ∃ s' x, x ∈ xs ∧ body s' x = Raise e.
Proof.
  revert s. induction xs as [|y xs IH]; intros s; simpl; [done|].
  destruct (body s y) as [s'|e'] eqn:Hy; simpl.
  - intros (s'' & x & Hx & Hr)%IH. exists s'', x. split; [by right|done].
  - intros [= ->]. exists s, y. split; [by left|done].
Qed.

End Loops.

Lemma elem_of_slice {A} (a : list A) (lo hi : option Z) (x : A) :
  x ∈ slice a lo hi → x ∈ a.
Proof.
  unfold slice. intros Hx. by eapply subseteq_drop, subseteq_take.
Qed.

(** ** The split into partitions *)

Lemma remaining_not_forced (normpath : string → string)
    (force all_pieces : list string) (p : string) :
  p ∈ force →
  p ∉ filter (λ p, normpath p ∉ (list_to_set (normpath <$> force) : gset string))
        all_pieces.
Proof.
  intros Hp [Hn _]%list_elem_of_filter. apply Hn.
  apply elem_of_list_to_set, list_elem_of_fmap_2, Hp.
Qed.

(** C9. Whatever the shuffle, the piece set, the proportions and the force
    list, a piece of the force list is among the test pieces and among
    neither the train nor the validation pieces, and its files are among the
    files of the test partition. *)
Theorem force_test_pieces_in_test (normpath : string → string)
    (shuffle : list string → list string) (train_split test_split : Qc)
    (force keys : list string) (piece_to_files : gmap string (list string))
    (p : string) :
  p ∈ force →
  let pieces :=
    split_pieces normpath shuffle train_split test_split force keys in
  p ∈ test_pieces pieces ∧
  (p ∉ train_pieces pieces) ∧
  (p ∉ val_pieces pieces) ∧
  ∀ files, piece_to_files !! p = Some files →
    files ⊆ files_of piece_to_files (test_pieces pieces).
Proof.
  intros Hp pieces. subst pieces. unfold split_pieces.
  cbn [train_pieces test_pieces val_pieces]. repeat split.
  - apply elem_of_app. by left.
  - intros Hin%elem_of_slice. revert Hin. by apply remaining_not_forced.
  - intros Hin%elem_of_slice. revert Hin. by apply remaining_not_forced.
  - intros files Hfiles f Hf. unfold files_of.
    apply list_elem_of_bind. exists p. split.
    + by rewrite Hfiles.
    + apply elem_of_app. by left.
Qed.

Lemma force_test_pieces_in_test_witness :
  let pieces :=
    split_pieces id reverse TRAIN_SPLIT TEST_SPLIT force_test_pieces
      ["Chopin/Barcarolle"; "Bach/Fugue/bwv_846"; "Ravel/Ondine"] in
  "Chopin/Barcarolle" ∈ test_pieces pieces ∧
  ("Chopin/Barcarolle" ∉ train_pieces pieces) ∧
  ("Chopin/Barcarolle" ∉ val_pieces pieces).
Proof.
  destruct (force_test_pieces_in_test id reverse TRAIN_SPLIT TEST_SPLIT
    force_test_pieces
    ["Chopin/Barcarolle"; "Bach/Fugue/bwv_846"; "Ravel/Ondine"] ∅
    "Chopin/Barcarolle") as (H1 & H2 & H3 & _).
  - unfold force_test_pieces. do 2 right. left.
  - auto.
Defined.

(** ** [merge_perf_pure] *)

(** The measures merged are those of both tables, each once, ascending. *)
Lemma elem_of_common_measures (perf_df pure_df : list table_row) (m : Z) :
  m ∈ common_measures perf_df pure_df ↔
  m ∈ (measure ∘ cols <$> perf_df) ∧ m ∈ (measure ∘ cols <$> pure_df).
Proof.
  unfold common_measures. rewrite merge_sort_Permutation.
  rewrite elem_of_elements, elem_of_intersection.
  by rewrite !elem_of_list_to_set.
Qed.

Lemma NoDup_common_measures (perf_df pure_df : list table_row) :
  NoDup (common_measures perf_df pure_df).
Proof.
  unfold common_measures. rewrite merge_sort_Permutation.
  apply NoDup_elements.
Qed.

Lemma Sorted_common_measures (perf_df pure_df : list table_row) :
  Sorted Z.le (common_measures perf_df pure_df).
Proof. apply (Sorted_merge_sort Z.le). Qed.

Lemma section_of_nonempty (df : list table_row) (m : Z) :
  m ∈ (measure ∘ cols <$> df) → ∃ first rest, section_of df m = first :: rest.
Proof.
  intros (row & Hm & Hrow)%list_elem_of_fmap.
  assert (Hin : row ∈ section_of df m).
  { apply list_elem_of_filter. split; [by rewrite Hm|done]. }
  destruct (section_of df m) as [|first rest]; [by apply elem_of_nil in Hin|].
  by exists first, rest.
Qed.

(** [merge_perf_pure] does not raise, and gives the common measures their
    merged rows one by one. *)
Lemma merge_perf_pure_rows (perf_csv : string) (perf_df pure_df : list table_row) :
  ∃ records,
    merge_perf_pure perf_csv perf_df (Some pure_df) = Ok records ∧
    rec_measure <$> records = common_measures perf_df pure_df ∧
    Forall (λ rec, ∃ first rest,
      section_of perf_df (rec_measure rec) = first :: rest ∧
      rec = merged_in_frame perf_csv perf_df pure_df first (rec_measure rec))
      records.
Proof.
  set (row := λ m,
    merged_in_frame perf_csv perf_df pure_df
      (default {| cols := {| measure := 0; note := ""; onset := np.NaN;
                             offset := np.NaN; measure_start := Q2Qc 0;
                             measure_end := Q2Qc 0 |};
                  time_signature := None |}
         (head (section_of perf_df m))) m).
  exists (row <$> common_measures perf_df pure_df). split; [|split].
  - unfold merge_perf_pure.
    rewrite (for_each_collect _ row); [done|].
    intros records m [Hm _]%elem_of_common_measures.
    destruct (section_of_nonempty _ _ Hm) as (first & rest & Hsec).
    unfold row, merged_in_frame. by rewrite Hsec.
  - rewrite <- list_fmap_compose. by apply list_fmap_id.
  - apply Forall_fmap, Forall_forall. intros m [Hm _]%elem_of_common_measures.
    destruct (section_of_nonempty _ _ Hm) as (first & rest & Hsec).
    exists first, rest. simpl. split; [done|]. unfold row. by rewrite Hsec.
Qed.

(** C5. [merge_perf_pure] returns one row for each measure index that both
    tables have and none for any other index; tables with the performance
    measures 1, 2, 3, 5 and the score measures 1, 3, 4 give rows for the
    measures 1 and 3 only. *)
Theorem merge_emits_common_measures (perf_csv : string)
    (perf_df pure_df : list table_row) :
  ∃ records,
    merge_perf_pure perf_csv perf_df (Some pure_df) = Ok records ∧
    NoDup (rec_measure <$> records) ∧
    (∀ m, m ∈ rec_measure <$> records ↔
       m ∈ (measure ∘ cols <$> perf_df) ∧ m ∈ (measure ∘ cols <$> pure_df)) ∧
    (list_to_set (measure ∘ cols <$> perf_df) =@{gset Z} {[1; 2; 3; 5]}%Z →
     list_to_set (measure ∘ cols <$> pure_df) =@{gset Z} {[1; 3; 4]}%Z →
     rec_measure <$> records = [1; 3]%Z).
Proof.
  destruct (merge_perf_pure_rows perf_csv perf_df pure_df)
    as (records & Hok & Hmeasures & _).
  exists records. rewrite Hmeasures. split; [done|]. split; [|split].
  - apply NoDup_common_measures.
  - intros m. apply elem_of_common_measures.
  - intros Hperf Hpure. unfold common_measures. rewrite Hperf, Hpure.
    vm_compute. reflexivity.
Qed.

Lemma merge_emits_common_measures_witness :
  ∃ records,
    merge_perf_pure "perf.csv" perf_table_1235 (Some pure_table_134)
      = Ok records ∧
    rec_measure <$> records = [1; 3]%Z.
Proof.
  destruct (merge_emits_common_measures "perf.csv" perf_table_1235
    pure_table_134) as (records & Hok & _ & _ & Hmeasures).
  exists records. split; [exact Hok|].
  apply Hmeasures; vm_compute; reflexivity.
Defined.

(** C6. For a measure of both tables, the merged row is built in the frame
    of the first performance row of that measure: [x] has, for each
    performance row of the measure and in their order, the pitch, the onset
    less the measure start, the offset less the onset and the measure end
    less the measure start; [y] has, for each score row of the measure and in
    their order, the pitch, the onset less the measure start and the offset
    less the measure start. *)
Theorem merge_rows_in_first_row_frame (perf_csv : string)
    (perf_df pure_df : list table_row) (m : Z) :
  m ∈ (measure ∘ cols <$> perf_df) →
  m ∈ (measure ∘ cols <$> pure_df) →
  ∃ records rec first rest,
    merge_perf_pure perf_csv perf_df (Some pure_df) = Ok records ∧
    rec ∈ records ∧
    rec_measure rec = m ∧
    section_of perf_df m = first :: rest ∧
    rec_x rec =
      ((λ row : table_row,
          (note row, np.sub (onset row) (np.Num (measure_start first)),
           np.sub (offset row) (onset row),
           (measure_end first - measure_start first)%Qc))
         <$> section_of perf_df m) ∧
    rec_y rec =
      ((λ row : table_row,
          (note row, np.sub (onset row) (np.Num (measure_start first)),
           np.sub (offset row) (np.Num (measure_start first))))
         <$> section_of pure_df m).
Proof.
  intros Hperf Hpure.
  destruct (merge_perf_pure_rows perf_csv perf_df pure_df)
    as (records & Hok & Hmeasures & Hrows).
  assert (Hm : m ∈ rec_measure <$> records).
  { rewrite Hmeasures. by apply elem_of_common_measures. }
  apply list_elem_of_fmap in Hm as (rec & -> & Hrec).
  rewrite Forall_forall in Hrows.
  destruct (Hrows rec Hrec) as (first & rest & Hsec & Hshape).
  exists records, rec, first, rest. repeat split; try done.
  - by rewrite Hshape at 1.
  - by rewrite Hshape at 1.
Qed.

Lemma merge_rows_in_first_row_frame_witness :
  ∃ records rec,
    merge_perf_pure "perf.csv" perf_table_1235 (Some pure_table_134)
      = Ok records ∧
    rec ∈ records ∧
    rec_measure rec = 3%Z ∧
    rec_x rec =
      [("E4", np.Num (Q2Qc 4 - Q2Qc 4), np.Num (Q2Qc 5 - Q2Qc 4),
        Q2Qc 6 - Q2Qc 4);
       ("G4", np.Num (Q2Qc 4.5 - Q2Qc 4), np.Num (Q2Qc 5.5 - Q2Qc 4.5),
        Q2Qc 6 - Q2Qc 4)]%Qc ∧
    rec_y rec =
      [("E4", np.Num (Q2Qc 4 - Q2Qc 4), np.Num (Q2Qc 4.5 - Q2Qc 4));
       ("G4", np.Num (Q2Qc 4.5 - Q2Qc 4), np.Num (Q2Qc 5 - Q2Qc 4))]%Qc.
Proof.
  destruct (merge_rows_in_first_row_frame "perf.csv" perf_table_1235
    pure_table_134 3) as (records & rec & first & rest & H1 & H2 & H3 & H4 & H5 & H6).
  - vm_compute. do 2 right. left.
  - vm_compute. right. left.
  - exists records, rec. repeat split; try done.
    + rewrite H5. injection H4 as <- _. reflexivity.
    + rewrite H6. injection H4 as <- _. reflexivity.
Defined.

(** ** [bisect_right] *)

Lemma bisect_mid (lo hi : nat) : lo < hi → lo ≤ (lo + hi) / 2 < hi.
Proof.
  intros H. split.
  - apply Nat.div_le_lower_bound; lia.
  - apply Nat.Div0.div_lt_upper_bound; lia.
Qed.

Lemma bisect_loop_bounds (a : list Qc) (x : Qc) (lo hi : nat) :
  lo ≤ hi → lo ≤ bisect_loop a x lo hi ≤ hi.
Proof.
  funelim (bisect_loop a x lo hi); intros Hle.
  - lia.
  - pose proof (bisect_mid lo hi l).
    match goal with IH : _ → _ ≤ bisect_loop _ _ _ _ ≤ _ |- _ =>
      specialize (IH ltac:(lia)) end.
    lia.
  - pose proof (bisect_mid lo hi l).
    match goal with IH : _ → _ ≤ bisect_loop _ _ _ _ ≤ _ |- _ =>
      specialize (IH ltac:(lia)) end.
    lia.
Qed.

Lemma bisect_right_le_length (a : list Qc) (x : Qc) :
  bisect_right a x ≤ length a.
Proof. unfold bisect_right. apply bisect_loop_bounds. lia. Qed.

(** When every element of the window is above [x], the search ends at its
    left end; the list need not be sorted for that. *)
Lemma bisect_loop_all_above (a : list Qc) (x : Qc) (lo hi : nat) :
  (∀ i, lo ≤ i < hi → (x < nth i a (Q2Qc 0))%Qc) →
  lo ≤ hi →
  bisect_loop a x lo hi = lo.
Proof.
  funelim (bisect_loop a x lo hi); intros Habove Hle.
  - done.
  - pose proof (bisect_mid lo hi l).
    match goal with IH : _ → _ → bisect_loop _ _ _ _ = _ |- _ =>
      apply IH; [|lia] end.
    intros i Hi. apply Habove. lia.
  - pose proof (bisect_mid lo hi l) as Hmid.
    specialize (Habove _ Hmid). by apply Qclt_not_le in Habove.
Qed.

(** When every element of the window is at most [x], the search ends at its
    right end. *)
Lemma bisect_loop_all_below (a : list Qc) (x : Qc) (lo hi : nat) :
  (∀ i, lo ≤ i < hi → (nth i a (Q2Qc 0) ≤ x)%Qc) →
  lo ≤ hi →
  bisect_loop a x lo hi = hi.
Proof.
  funelim (bisect_loop a x lo hi); intros Hbelow Hle.
  - lia.
  - pose proof (bisect_mid lo hi l) as Hmid.
    specialize (Hbelow _ Hmid). by apply Qcle_not_lt in Hbelow.
  - pose proof (bisect_mid lo hi l).
    match goal with IH : _ → _ → bisect_loop _ _ _ _ = _ |- _ =>
      apply IH; [|lia] end.
    intros i Hi. apply Hbelow. lia.
Qed.

(** On a sorted list the search separates the elements at most [x] from
    those above [x]: the position before its result holds the greatest
    element at most [x]. *)
Lemma bisect_loop_sorted (a : list Qc) (x : Qc) (lo hi : nat) :
  (∀ i, i < lo → (nth i a (Q2Qc 0) ≤ x)%Qc) →
  (∀ i, hi ≤ i < length a → (x < nth i a (Q2Qc 0))%Qc) →
  (∀ i j, i ≤ j < length a → (nth i a (Q2Qc 0) ≤ nth j a (Q2Qc 0))%Qc) →
  lo ≤ hi ≤ length a →
  (∀ i, i < bisect_loop a x lo hi → (nth i a (Q2Qc 0) ≤ x)%Qc) ∧
  (∀ i, bisect_loop a x lo hi ≤ i < length a → (x < nth i a (Q2Qc 0))%Qc).
Proof.
  funelim (bisect_loop a x lo hi); intros Hlo Hhi Hsorted Hle.
  - split; [done|]. intros i Hi. apply Hhi. lia.
  - pose proof (bisect_mid lo hi l).
    match goal with IH : _ → _ → _ → _ → _ ∧ _ |- _ =>
      apply IH; [done| |done|lia] end.
    intros i Hi.
    match goal with Hx : (x < nth _ a _)%Qc |- _ =>
      eapply Qclt_le_trans; [exact Hx|] end.
    apply Hsorted. lia.
  - pose proof (bisect_mid lo hi l).
    match goal with IH : _ → _ → _ → _ → _ ∧ _ |- _ =>
      apply IH; [|done|done|lia] end.
    intros i Hi.
    match goal with Hx : (nth _ a _ ≤ x)%Qc |- _ =>
      eapply Qcle_trans; [|exact Hx] end.
    apply Hsorted. lia.
Qed.

Lemma bisect_right_sorted (a : list Qc) (x : Qc) :
  (∀ i j, i ≤ j < length a → (nth i a (Q2Qc 0) ≤ nth j a (Q2Qc 0))%Qc) →
  (∀ i, i < bisect_right a x → (nth i a (Q2Qc 0) ≤ x)%Qc) ∧
  (∀ i, bisect_right a x ≤ i < length a → (x < nth i a (Q2Qc 0))%Qc).
Proof.
  intros Hsorted. apply bisect_loop_sorted; [lia|lia|done|lia].
Qed.

(** ** [extract_notes]: the boundaries and the body of the loop *)

Lemma end_times_inv (downbeats ets : list Qc) :
  end_times downbeats = Ok ets →
  length ets = length downbeats ∧ downbeats ≠ [] ∧
  ∃ final, ets = drop 1 downbeats ++ [final].
Proof.
  unfold end_times, getlast. destruct downbeats as [|d ds].
  - done.
  - destruct (last (d :: ds)) as [x|] eqn:Hlast; [|done]. simpl.
    intros [= <-]. rewrite length_app, length_drop. simpl.
    repeat split; [lia|done|eauto].
Qed.

Lemma Qcminus_eq_0 (x y : Qc) : (x - y)%Qc = Q2Qc 0 ↔ x = y.
Proof.
  split.
  - intros H. transitivity ((x - y) + y)%Qc; [ring|]. rewrite H. ring.
  - intros ->. ring.
Qed.

(** The two outcomes of the body for a note: skipped when no downbeat is at
    or before its onset, a record otherwise. With as many boundaries as
    downbeats it raises nothing. *)
Lemma note_body_cases (downbeats ets : list Qc) (sig_map : gmap Z Qc) (n : Note) :
  length ets = length downbeats →
  let idx := measure_idx downbeats (start n) in
  let norm_duration := sig_map_get sig_map (idx + 1) in
  let m_start := sum (sig_map_get sig_map <$> range 1 (idx + 1)) in
  ((idx < 0)%Z ∧ note_body downbeats ets sig_map n = Ok None) ∨
  ∃ real_start real_end r,
    (0 ≤ idx)%Z ∧
    downbeats !! Z.to_nat idx = Some real_start ∧
    ets !! Z.to_nat idx = Some real_end ∧
    note_body downbeats ets sig_map n = Ok (Some r) ∧
    measure r = (idx + 1)%Z ∧
    note r = note_number_to_name (pitch n) ∧
    onset r =
      normalized_time (start n) real_start real_end norm_duration m_start ∧
    offset r =
      normalized_time (end_ n) real_start real_end norm_duration m_start ∧
    measure_start r = round m_start 5 ∧
    measure_end r = round (m_start + norm_duration) 5.
Proof.
  intros Hlen idx nd ms. unfold note_body. fold idx.
  pose proof (bisect_right_le_length downbeats (start n)) as Hb.
  assert (Hidx : (idx < Z.of_nat (length downbeats))%Z)
    by (unfold idx, measure_idx; lia).
  case_bool_decide as Hguard.
  - left. split; [lia|done].
  - right. assert (Hpos : (0 ≤ idx)%Z) by lia.
    destruct (lookup_lt_is_Some_2 downbeats (Z.to_nat idx)) as [rs Hrs]; [lia|].
    destruct (lookup_lt_is_Some_2 ets (Z.to_nat idx)) as [re Hre]; [lia|].
    unfold getitem. rewrite Hrs, Hre. cbn [mbind result_bind].
    eexists rs, re, _. split; [done|]. split; [done|]. split; [done|].
    split; [reflexivity|]. by cbn [measure note onset offset measure_start
      measure_end].
Qed.

Lemma note_body_no_raise (downbeats ets : list Qc) (sig_map : gmap Z Qc)
    (n : Note) (e : exn) :
  length ets = length downbeats →
  note_body downbeats ets sig_map n ≠ Raise e.
Proof.
  intros Hlen.
  destruct (note_body_cases downbeats ets sig_map n Hlen)
    as [[_ H]|(rs & re & r & _ & _ & _ & H & _)]; congruence.
Qed.

(** ** [extract_notes]: the loops over instruments and notes *)

Section Collect.

Context {A B : Type} (f : A → result (option B)).

(** The shape of the loop over the notes: a round appends the record of its
    note, if the note has one. *)
Local Abbreviation step :=
  (λ (records : list B) (x : A),
     r ← f x;
     Ok (match r with
         | Some rec => records ++ [rec]
         | None => records
         end)).

Lemma step_raise_inv (records : list B) (x : A) (e : exn) :
  step records x = Raise e → f x = Raise e.
Proof. cbv beta. destruct (f x) as [[r|]|e']; simpl; congruence. Qed.

Lemma step_raise (records : list B) (x : A) (e : exn) :
  f x = Raise e → step records x = Raise e.
Proof. cbv beta. by intros ->. Qed.

Lemma step_skip (records : list B) (x : A) :
  f x = Ok None → step records x = Ok records.
Proof. cbv beta. by intros ->. Qed.

Lemma for_each_step_inv (xs : list A) (acc out : list B) :
  for_each step xs acc = Ok out →
  ∃ added, out = acc ++ added ∧
    ∀ r, r ∈ added → ∃ x, x ∈ xs ∧ f x = Ok (Some r).
Proof.
  revert acc. induction xs as [|x xs IH]; intros acc; simpl.
  - intros [= <-]. exists []. split; [by rewrite app_nil_r|].
    intros r Hr. by apply elem_of_nil in Hr.
  - destruct (f x) as [[rec|]|e] eqn:Hx; simpl; [| |done].
    + intros (added & -> & Hadded)%IH. exists (rec :: added).
      split; [by rewrite <- app_assoc|].
      intros r [->|Hr]%elem_of_cons.
      * exists x. split; [by left|done].
      * destruct (Hadded r Hr) as (y & Hy & Hfy). exists y.
        split; [by right|done].
    + intros (added & -> & Hadded)%IH. exists added. split; [done|].
      intros r Hr. destruct (Hadded r Hr) as (y & Hy & Hfy). exists y.
      split; [by right|done].
Qed.

End Collect.

Lemma for_each_app {A S} (body : S → A → result S) (xs ys : list A) (s : S) :
  for_each body (xs ++ ys) s = (s' ← for_each body xs s; for_each body ys s').
Proof.
  revert s. induction xs as [|x xs IH]; intros s; simpl; [done|].
  destruct (body s x) as [s'|e]; simpl; [apply IH|done].
Qed.

(** [sort_values] moves the rows and neither drops nor adds one. *)
Lemma filter_nan_Permutation (records : list note_record) :
  filter (λ r, onset r ≠ np.NaN) records
    ++ filter (λ r, onset r = np.NaN) records ≡ₚ records.
Proof.
  induction records as [|r records IH]; [done|].
  rewrite !filter_cons. destruct (decide (onset r = np.NaN)) as [Hnan|Hnum].
  - rewrite decide_False by (by intros ?). rewrite <- Permutation_middle.
    by constructor.
  - rewrite decide_True by done. simpl. by constructor.
Qed.

Lemma sort_values_by_onset_inv (records out : list note_record) :
  sort_values_by_onset records = Ok out → records ≠ [] ∧ out ≡ₚ records.
Proof.
  unfold sort_values_by_onset. destruct records as [|r records]; [done|].
  intros [= <-]. split; [done|].
  rewrite merge_sort_Permutation. apply filter_nan_Permutation.
Qed.

Lemma sort_values_by_onset_ok (records : list note_record) :
  records ≠ [] → ∃ out, sort_values_by_onset records = Ok out.
Proof. destruct records; [done|]. by eexists. Qed.

(** Every record [extract_notes] returns is the record of a note of the
    file, and there is at least one. *)
Lemma extract_notes_from_inv (downbeats : list Qc) (pm : list Instrument)
    (ts_points : list (Z * string)) (records : list note_record) :
  extract_notes_from downbeats pm ts_points = Ok records →
  ∃ ets,
    end_times downbeats = Ok ets ∧
    records ≠ [] ∧
    ∀ r, r ∈ records → ∃ inst n,
      inst ∈ pm ∧ n ∈ notes inst ∧
      note_body downbeats ets
        (sig_map_loop ts_points (length downbeats)).2 n = Ok (Some r).
Proof.
  unfold extract_notes_from.
  destruct (end_times downbeats) as [ets|e] eqn:Hets; [simpl|done].
  set (sm := (sig_map_loop ts_points (length downbeats)).2).
  destruct (for_each _ pm []) as [unsorted|e] eqn:Hloop; [simpl|done].
  intros [Hne Hperm]%sort_values_by_onset_inv.
  exists ets. split; [done|]. split.
  - intros ->. by apply Permutation_nil in Hperm.
  - intros r Hr. rewrite Hperm in Hr.
    revert Hloop Hr. generalize unsorted. intros out.
    assert (Hgen : ∀ acc, for_each (λ records inst,
        for_each (λ records n,
          r ← note_body downbeats ets sm n;
          Ok (match r with
              | Some rec => records ++ [rec]
              | None => records
              end)) (notes inst) records) pm acc = Ok out →
        r ∈ out → r ∈ acc ∨ ∃ inst n, inst ∈ pm ∧ n ∈ notes inst ∧
          note_body downbeats ets sm n = Ok (Some r)).
    { clear. revert out. induction pm as [|inst pm IH]; intros out acc; simpl.
      - intros [= <-]. by left.
      - destruct (for_each _ (notes inst) acc) as [acc'|e] eqn:Hinner;
          simpl; [|done].
        intros Hrest Hr. destruct (IH _ _ Hrest Hr) as [Hacc|Hlater].
        + apply for_each_step_inv in Hinner as (added & -> & Hadded).
          apply elem_of_app in Hacc as [Hacc|Hnew]; [by left|].
          right. destruct (Hadded r Hnew) as (n & Hn & Hbody).
          exists inst, n. split; [by left|done].
        + right. destruct Hlater as (inst' & n & Hinst & Hn & Hbody).
          exists inst', n. split; [by right|done]. }
    intros Hloop Hr. destruct (Hgen [] Hloop Hr) as [Hnil|Hsome]; [|done].
    by apply elem_of_nil in Hnil.
Qed.

(** A note before every downbeat has measure position [-1]. *)
Lemma measure_idx_before_all (downbeats : list Qc) (onset : Qc) :
  (∀ d, d ∈ downbeats → ¬ (d ≤ onset)%Qc) →
  measure_idx downbeats onset = (-1)%Z.
Proof.
  intros Hnone. unfold measure_idx, bisect_right.
  rewrite bisect_loop_all_above; [done| |lia].
  intros i [_ Hi]. apply Qcnot_le_lt, Hnone.
  destruct (lookup_lt_is_Some_2 downbeats i Hi) as [d Hd].
  rewrite (nth_lookup_Some _ _ _ _ Hd). by eapply list_elem_of_lookup_2.
Qed.

(** A note at or after every downbeat has the last measure position. *)
Lemma measure_idx_after_all (downbeats : list Qc) (onset : Qc) :
  (∀ d, d ∈ downbeats → (d ≤ onset)%Qc) →
  measure_idx downbeats onset = (Z.of_nat (length downbeats) - 1)%Z.
Proof.
  intros Hall. unfold measure_idx, bisect_right.
  rewrite bisect_loop_all_below; [done| |lia].
  intros i [_ Hi]. apply Hall.
  destruct (lookup_lt_is_Some_2 downbeats i Hi) as [d Hd].
  rewrite (nth_lookup_Some _ _ _ _ Hd). by eapply list_elem_of_lookup_2.
Qed.

Lemma range_snoc (m : Z) : (1 ≤ m)%Z → range 1 (m + 1) = range 1 m ++ [m].
Proof.
  intros Hm. unfold range.
  replace (Z.to_nat (m + 1 - 1)) with (S (Z.to_nat (m - 1))) by lia.
  rewrite seq_S, fmap_app. simpl. do 2 f_equal. lia.
Qed.

Lemma sum_snoc (xs : list Qc) (x : Qc) : sum (xs ++ [x]) = (sum xs + x)%Qc.
Proof. unfold sum. by rewrite fold_left_app. Qed.

(** ** [extract_notes]: the records it returns *)

(** C1, as stated, fails: with the downbeats 0, 2, 4 the synthetic final
    boundary is 6, and the note with onset 7 is not dropped; it gets a record
    in measure 3. *)
Lemma late_note_is_kept :
  end_times downbeats_024 = Ok [Q2Qc 2; Q2Qc 4; Q2Qc 6] ∧
  (Q2Qc 6 ≤ start (note_at 61 7 8))%Qc ∧
  extract_notes_from downbeats_024 [{| notes := [note_at 61 7 8] |}] []
    = Ok [record_at 3 "C#4" 7 8 4 6].
Proof. split; [|split]; compute_done. Qed.

Lemma note_body_before_all (downbeats ets : list Qc) (sig_map : gmap Z Qc)
    (n : Note) :
  (∀ d, d ∈ downbeats → ¬ (d ≤ start n)%Qc) →
  note_body downbeats ets sig_map n = Ok None.
Proof.
  intros Hnone. unfold note_body.
  rewrite (measure_idx_before_all _ _ Hnone).
  rewrite bool_decide_eq_true_2; [done|]. left. lia.
Qed.

(** C1, amended. A note whose onset has no downbeat at or before it is
    skipped by the loop without an exception, and [extract_notes] returns
    what it returns for the file without that note. *)
Theorem note_before_first_downbeat_dropped (downbeats : list Qc)
    (ts_points : list (Z * string)) (pm1 pm2 : list Instrument)
    (before after : list Note) (n : Note) :
  (∀ d, d ∈ downbeats → ¬ (d ≤ start n)%Qc) →
  (∀ ets sig_map, note_body downbeats ets sig_map n = Ok None) ∧
  extract_notes_from downbeats
    (pm1 ++ {| notes := before ++ n :: after |} :: pm2) ts_points =
  extract_notes_from downbeats
    (pm1 ++ {| notes := before ++ after |} :: pm2) ts_points.
Proof.
  intros Hnone. split; [intros; by apply note_body_before_all|].
  unfold extract_notes_from.
  destruct (end_times downbeats) as [ets|e]; [simpl|done].
  rewrite !for_each_app.
  destruct (for_each _ pm1 []) as [records|e]; [simpl|done].
  rewrite !for_each_app.
  destruct (for_each _ before records) as [records'|e]; [simpl|done].
  by rewrite note_body_before_all.
Qed.

Lemma note_before_first_downbeat_dropped_witness :
  note_body downbeats_024 [Q2Qc 2; Q2Qc 4; Q2Qc 6] ∅ (note_at 20 (-1) 2)
    = Ok None ∧
  extract_notes_from downbeats_024
    [{| notes := [note_at 60 2.5 3; note_at 20 (-1) 2; note_at 62 0.3 0.5] |}]
    [(1, "4/4")]%Z =
  extract_notes_from downbeats_024
    [{| notes := [note_at 60 2.5 3; note_at 62 0.3 0.5] |}] [(1, "4/4")]%Z.
Proof.
  destruct (note_before_first_downbeat_dropped downbeats_024 [(1, "4/4")]%Z
    [] [] [note_at 60 2.5 3] [note_at 62 0.3 0.5] (note_at 20 (-1) 2))
    as [Hbody Hsame].
  - intros d Hd. unfold downbeats_024 in Hd.
    repeat (apply elem_of_cons in Hd as [->|Hd]); [compute_done..|].
    by apply elem_of_nil in Hd.
  - split; [apply Hbody|exact Hsame].
Defined.

(** The span written into a record is the prefix sum of the normalized
    durations before its measure, and that sum plus its own duration. *)
Lemma extract_notes_from_spans (downbeats : list Qc) (pm : list Instrument)
    (ts_points : list (Z * string)) (records : list note_record)
    (r : note_record) :
  extract_notes_from downbeats pm ts_points = Ok records →
  r ∈ records →
  let sig_map := (sig_map_loop ts_points (length downbeats)).2 in
  (1 ≤ measure r)%Z ∧
  measure_start r =
    round (sum (sig_map_get sig_map <$> range 1 (measure r))) 5 ∧
  measure_end r =
    round (sum (sig_map_get sig_map <$> range 1 (measure r))
           + sig_map_get sig_map (measure r)) 5.
Proof.
  intros (ets & Hets & _ & Hall)%extract_notes_from_inv Hr sig_map.
  destruct (Hall r Hr) as (inst & n & _ & _ & Hbody).
  destruct (end_times_inv _ _ Hets) as (Hlen & _ & _).
  destruct (note_body_cases downbeats ets sig_map n Hlen)
    as [[_ H]|(rs & re & r' & Hidx & _ & _ & H & Hm & _ & _ & _ & Hs & He)];
    fold sig_map in Hbody; try congruence.
  assert (r' = r) as -> by congruence.
  rewrite Hm. repeat split; [lia|done|done].
Qed.

(** C4. With the downbeats 0, 2, 4, the signature 4/4 from measure 1 on and
    one note from 2.5 s to 3.0 s, [extract_notes] returns one record: measure
    2, onset 2.5, offset 3.0, measure start 2.0, measure end 4.0. *)
Theorem round_trip_scenario (p : Z) :
  load_downbeats annotation_024 = downbeats_024 ∧
  sig_to_duration (Some "4/4") = Q2Qc 2 ∧
  extract_notes
    [{| notes := [{| pitch := p; start := Q2Qc 2.5; end_ := Q2Qc 3 |}] |}]
    annotation_024 [(1, "4/4")]%Z
  = Ok [{| measure := 2;
           note := note_number_to_name p;
           onset := np.Num (Q2Qc 2.5);
           offset := np.Num (Q2Qc 3);
           measure_start := Q2Qc 2;
           measure_end := Q2Qc 4 |}].
Proof.
  assert (Hdownbeats : load_downbeats annotation_024 = downbeats_024)
    by compute_done.
  split; [done|]. split; [compute_done|].
  unfold extract_notes. rewrite Hdownbeats.
  vm_compute. do 2 f_equal.
  f_equal;
    first [apply Qc_is_canon; reflexivity
          |apply (f_equal np.Num), Qc_is_canon; reflexivity].
Qed.

(** ** Signature strings *)

Lemma digit_not_space_nor_slash (c : ascii) :
  is_Some (digit_of_ascii c) → is_space c = false ∧ c ≠ "/"%char.
Proof.
  unfold digit_of_ascii, is_space. intros [d Hd].
  destruct ((48 <=? N_of_ascii c) && (N_of_ascii c <=? 57))%N eqn:Hrange;
    [|done].
  apply andb_prop in Hrange as [H1%N.leb_le H2%N.leb_le]. split.
  - apply orb_false_iff. split; [apply N.eqb_neq; lia|].
    apply andb_false_iff. right. apply N.leb_gt. lia.
  - intros ->. vm_compute in H1. done.
Qed.

Lemma string_of_uint_digits (d : Decimal.uint) :
  Forall (λ c, is_Some (digit_of_ascii c))
    (list_ascii_of_string (NilEmpty.string_of_uint d)).
Proof.
  induction d; simpl; constructor; try done; by eexists.
Qed.

(** Reading back the digits of [d] after [acc]. *)
Lemma int_digits_string_of_uint (d : Decimal.uint) (acc : N) (seen : bool) :
  d ≠ Decimal.Nil ∨ seen = true →
  int_digits (list_ascii_of_string (NilEmpty.string_of_uint d)) acc seen =
  Some match acc with
       | N0 => Pos.of_uint d
       | Npos p => Npos (Pos.of_uint_acc d p)
       end.
Proof.
  revert acc seen.
  induction d as [|d IH|d IH|d IH|d IH|d IH|d IH|d IH|d IH|d IH|d IH];
    intros acc seen Hseen.
  1: { destruct Hseen as [?| ->]; [done|]. by destruct acc. }
  all: cbn [NilEmpty.string_of_uint list_ascii_of_string int_digits].
  all: change (Ascii.eqb _ "_") with false; cbn match.
  all: match goal with
       | |- context [digit_of_ascii ?c] =>
           let v := eval vm_compute in (digit_of_ascii c) in
           change (digit_of_ascii c) with v
       end; cbn match.
  all: rewrite IH by (by right); f_equal.
  all: destruct acc as [|p]; cbn; try done.
  all: f_equal; f_equal; lia.
Qed.

Lemma lstrip_no_space (l : list ascii) :
  Forall (λ c, is_space c = false) l → lstrip l = l.
Proof. destruct 1 as [|c l Hc _]; simpl; [done|by rewrite Hc]. Qed.

Lemma strip_no_space (l : list ascii) :
  Forall (λ c, is_space c = false) l → strip l = l.
Proof.
  intros Hl. unfold strip. rewrite (lstrip_no_space l Hl).
  rewrite lstrip_no_space; [apply rev_involutive|].
  apply Forall_forall. intros c Hc. rewrite Forall_forall in Hl. apply Hl.
  apply list_elem_of_In. apply list_elem_of_In, in_rev in Hc. done.
Qed.

(** [int(str(z)) == z]. *)
Lemma int_of_string_str_of_int (z : Z) : int_of_string (str_of_int z) = Some z.
Proof.
  destruct z as [|p|p]; [done| |].
  all: unfold str_of_int, int_of_string, NilZero.string_of_int, Z.to_int,
    NilZero.string_of_uint.
  all: pose proof (DecimalPos.Unsigned.to_uint_nonnil p) as Hnil.
  all: pose proof (DecimalPos.Unsigned.of_to p) as Hp.
  all: pose proof (string_of_uint_digits (Pos.to_uint p)) as Hdigits.
  all: pose proof (int_digits_string_of_uint (Pos.to_uint p) 0 false
      (or_introl Hnil)) as Hread.
  all: assert (Hspace : Forall (λ c, is_space c = false)
      (list_ascii_of_string (NilEmpty.string_of_uint (Pos.to_uint p))))
    by (eapply Forall_impl; [exact Hdigits|];
        intros c Hc; by apply digit_not_space_nor_slash).
  all: destruct (Pos.to_uint p) as [|d|d|d|d|d|d|d|d|d|d] eqn:Hd; [done|..].
  all: cbn [NilEmpty.string_of_uint list_ascii_of_string] in *.
  all: rewrite strip_no_space by (try done; by constructor).
  all: cbv beta iota; rewrite Hread, Hp; done.
Qed.

Lemma str_of_int_no_slash (z : Z) :
  Forall (λ c, c ≠ "/"%char) (list_ascii_of_string (str_of_int z)).
Proof.
  assert (Hd : ∀ d, Forall (λ c, c ≠ "/"%char)
    (list_ascii_of_string (NilEmpty.string_of_uint d))).
  { intros d. eapply Forall_impl; [apply string_of_uint_digits|].
    intros c Hc. by apply digit_not_space_nor_slash. }
  unfold str_of_int, NilZero.string_of_int, Z.to_int, NilZero.string_of_uint.
  destruct z as [|p|p].
  - by repeat constructor.
  - destruct (Pos.to_uint p) eqn:E; try (rewrite <- E; apply Hd).
    by repeat constructor.
  - cbn [list_ascii_of_string]. constructor; [done|].
    destruct (Pos.to_uint p) eqn:E; try (rewrite <- E; apply Hd).
    by repeat constructor.
Qed.

Lemma split_no_sep (sep : ascii) (s : string) :
  Forall (λ c, c ≠ sep) (list_ascii_of_string s) → split sep s = [s].
Proof.
  induction s as [|c s IH]; simpl; [done|].
  intros [Hc Hs]%Forall_cons. rewrite (IH Hs).
  by destruct (Ascii.eqb_spec c sep).
Qed.

Lemma split_join (sep : ascii) (s1 s2 : string) :
  Forall (λ c, c ≠ sep) (list_ascii_of_string s1) →
  split sep (s1 +:+ String sep s2) = s1 :: split sep s2.
Proof.
  induction s1 as [|c s1 IH]; simpl.
  - intros _. by rewrite Ascii.eqb_refl.
  - intros [Hc Hs]%Forall_cons. rewrite (IH Hs).
    by destruct (Ascii.eqb_spec c sep).
Qed.

Lemma float_of_int_0 (z : Z) : float_of_int z = Q2Qc 0 → z = 0%Z.
Proof.
  unfold float_of_int. intros H%Q2Qc_eq_iff.
  unfold Qeq in H. simpl in H. lia.
Qed.

(** C8. The normalized duration of a signature string is a function of the
    two integers it reads as: for beats [b] and a beat unit [u] other than 0
    it is (60/120) * b * (4/u), in particular for the string that
    [extract_time_signatures] renders for them; 4/4 gives 2.0 and 3/4 gives
    1.5. *)
Theorem sig_to_duration_formula :
  (∀ ts s1 s2 beats beat_type,
     split "/" ts = [s1; s2] →
     int_of_string s1 = Some beats →
     int_of_string s2 = Some beat_type →
     beat_type ≠ 0%Z →
     sig_to_duration (Some ts) =
       (Q2Qc (60 / 120) * float_of_int beats
        * (Q2Qc 4 / float_of_int beat_type))%Qc) ∧
  (∀ beats beat_type,
     beat_type ≠ 0%Z →
     sig_to_duration
       (Some (str_of_int beats +:+ "/" +:+ str_of_int beat_type)) =
       (Q2Qc (60 / 120) * float_of_int beats
        * (Q2Qc 4 / float_of_int beat_type))%Qc) ∧
  sig_to_duration (Some "4/4") = Q2Qc 2 ∧
  sig_to_duration (Some "3/4") = Q2Qc 1.5.
Proof.
  assert (Hgen : ∀ ts s1 s2 beats beat_type,
     split "/" ts = [s1; s2] →
     int_of_string s1 = Some beats →
     int_of_string s2 = Some beat_type →
     beat_type ≠ 0%Z →
     sig_to_duration (Some ts) =
       (Q2Qc (60 / 120) * float_of_int beats
        * (Q2Qc 4 / float_of_int beat_type))%Qc).
  { intros ts s1 s2 beats beat_type Hsplit H1 H2 Hnz.
    unfold sig_to_duration. rewrite Hsplit. simpl.
    rewrite H1, H2. simpl. unfold truediv.
    destruct (decide (float_of_int beat_type = Q2Qc 0)) as [Hz|_].
    - by apply float_of_int_0 in Hz.
    - done. }
  split; [exact Hgen|]. split; [|split; compute_done].
  intros beats beat_type Hnz.
  apply (Hgen _ (str_of_int beats) (str_of_int beat_type)); try done.
  - change ("/" +:+ str_of_int beat_type)
      with (String "/" (str_of_int beat_type)).
    rewrite split_join by apply str_of_int_no_slash.
    by rewrite split_no_sep by apply str_of_int_no_slash.
  - apply int_of_string_str_of_int.
  - apply int_of_string_str_of_int.
Qed.

Lemma sig_to_duration_formula_witness :
  sig_to_duration (Some " 6 / 8 ") =
    (Q2Qc (60 / 120) * float_of_int 6 * (Q2Qc 4 / float_of_int 8))%Qc ∧
  sig_to_duration (Some (str_of_int 6 +:+ "/" +:+ str_of_int 8)) =
    (Q2Qc (60 / 120) * float_of_int 6 * (Q2Qc 4 / float_of_int 8))%Qc.
Proof.
  destruct sig_to_duration_formula as (Hgen & Hstr & _). split.
  - apply (Hgen " 6 / 8 " " 6 " " 8 " 6%Z 8%Z); [reflexivity..|lia].
  - apply (Hstr 6%Z 8%Z). lia.
Defined.

(** ** The signature in force for a measure *)

Lemma find_all_false {A} (f : A → bool) (l : list A) :
  (∀ x, x ∈ l → f x = false) → find f l = None.
Proof.
  induction l as [|x l IH]; simpl; [done|]. intros Hall.
  rewrite (Hall x) by left. apply IH. intros y Hy. apply Hall. by right.
Qed.

(** A measure before every change point keeps the signature in force. *)
Lemma effective_sig_before_all (ts_points : list (Z * string))
    (measure_num : Z) (last_sig : string) :
  (∀ m s, (m, s) ∈ ts_points → (measure_num < m)%Z) →
  effective_sig ts_points measure_num last_sig = last_sig.
Proof.
  intros Hbefore. unfold effective_sig. rewrite find_all_false; [done|].
  intros [m s] Hin. rewrite elem_of_reverse in Hin.
  apply bool_decide_eq_false_2.
  specialize (Hbefore m s Hin). simpl. lia.
Qed.

Lemma range_0_S (n : nat) :
  range 0 (Z.of_nat (S n)) = range 0 (Z.of_nat n) ++ [Z.of_nat n].
Proof.
  unfold range. rewrite !Z.sub_0_r, !Nat2Z.id, seq_S, fmap_app. done.
Qed.

(** One more round of the loop that fills [sig_map]. *)
Lemma sig_map_loop_S (ts_points : list (Z * string)) (n : nat) :
  sig_map_loop ts_points (S n) =
  let last_sig :=
    effective_sig ts_points (Z.of_nat n + 1) (sig_map_loop ts_points n).1 in
  (last_sig,
   <[(Z.of_nat n + 1)%Z := sig_to_duration (Some last_sig)]>
     (sig_map_loop ts_points n).2).
Proof.
  unfold sig_map_loop. rewrite range_0_S, fold_left_app. simpl.
  by destruct (fold_left _ _ _).
Qed.

Lemma last_sig_default (ts_points : list (Z * string)) (k : Z) (n : nat) :
  (∀ m s, (m, s) ∈ ts_points → (k < m)%Z) →
  (Z.of_nat n ≤ k)%Z →
  (sig_map_loop ts_points n).1 = "4/4".
Proof.
  intros Hbefore. induction n as [|n IH]; intros Hn; [done|].
  rewrite sig_map_loop_S. simpl. rewrite effective_sig_before_all.
  - apply IH. lia.
  - intros m s Hin. specialize (Hbefore m s Hin). lia.
Qed.

(** The duration stored for measure [k] is that of the signature in force
    after round [k]. *)
Lemma sig_map_lookup (ts_points : list (Z * string)) (k n : nat) :
  1 ≤ k ≤ n →
  (sig_map_loop ts_points n).2 !! Z.of_nat k =
  Some (sig_to_duration (Some (sig_map_loop ts_points k).1)).
Proof.
  intros [Hk Hn]. induction n as [|n IH]; [lia|].
  destruct (decide (k = S n)) as [->|Hne].
  - rewrite sig_map_loop_S. simpl.
    replace (Z.of_nat n + 1)%Z with (Z.of_nat (S n)) by lia.
    by rewrite lookup_insert_eq.
  - rewrite sig_map_loop_S. simpl. rewrite lookup_insert_ne by lia.
    apply IH. lia.
Qed.

(** C2, as stated, fails: without a score document the [time_signature]
    column of the table is empty, not 4/4. *)
Lemma no_score_leaves_time_signature_empty :
  main_ts_points NoFile = [] ∧
  main_table NoFile [{| notes := [note_at 64 2.5 3] |}] annotation_024
    = Ok [{| cols := record_at 2 "E4" 2.5 3 2 4; time_signature := None |}] ∧
  (None : option string) ≠ Some "4/4".
Proof. split; [|split]; compute_done. Qed.

(** C2, amended. For a measure index before every change point,
    [extract_notes] resolves the signature 4/4 and stores the normalized
    duration 2.0; with no change points this holds for every measure, and
    [assign_time_signature] leaves the [time_signature] column empty. A
    missing or unparsable score document gives no change points. *)
Theorem default_signature_is_four_four :
  (∀ (ts_points : list (Z * string)) (n k : nat),
     1 ≤ k ≤ n →
     (∀ m s, (m, s) ∈ ts_points → (Z.of_nat k < m)%Z) →
     (sig_map_loop ts_points k).1 = "4/4" ∧
     (sig_map_loop ts_points n).2 !! Z.of_nat k = Some (Q2Qc 2)) ∧
  (∀ (n k : nat),
     1 ≤ k ≤ n →
     (sig_map_loop [] k).1 = "4/4" ∧
     (sig_map_loop [] n).2 !! Z.of_nat k = Some (Q2Qc 2)) ∧
  (∀ df : list note_record,
     assign_time_signature df [] =
       (λ r, {| cols := r; time_signature := None |}) <$> df) ∧
  main_ts_points NoFile = [] ∧
  main_ts_points Unparsable = [].
Proof.
  assert (Hgen : ∀ (ts_points : list (Z * string)) (n k : nat),
     1 ≤ k ≤ n →
     (∀ m s, (m, s) ∈ ts_points → (Z.of_nat k < m)%Z) →
     (sig_map_loop ts_points k).1 = "4/4" ∧
     (sig_map_loop ts_points n).2 !! Z.of_nat k = Some (Q2Qc 2)).
  { intros ts_points n k Hk Hbefore.
    assert (Hsig : (sig_map_loop ts_points k).1 = "4/4")
      by (by eapply last_sig_default).
    split; [done|]. rewrite sig_map_lookup by done. rewrite Hsig.
    compute_done. }
  split; [exact Hgen|]. split; [|done].
  intros n k Hk. apply Hgen; [done|]. intros m s Hin.
  by apply elem_of_nil in Hin.
Qed.

Lemma default_signature_is_four_four_witness :
  (sig_map_loop [(3, "3/4")]%Z 2).1 = "4/4" ∧
  (sig_map_loop [(3, "3/4")]%Z 5).2 !! 2%Z = Some (Q2Qc 2) ∧
  (sig_map_loop [] 5).2 !! 4%Z = Some (Q2Qc 2).
Proof.
  destruct default_signature_is_four_four as (Hgen & Hempty & _).
  destruct (Hgen [(3, "3/4")]%Z 5 2) as [H1 H2].
  - lia.
  - intros m s Hin. apply list_elem_of_singleton in Hin as [= -> ->]. lia.
  - destruct (Hempty 5 4) as [_ H3]; [lia|]. auto.
Defined.

(** Where [assign_time_signature] and [extract_notes] part: before the first
    change point the column shows the first signature of the score, while
    the duration is that of 4/4. *)
Lemma before_first_change_point :
  assign_time_signature [record_at 1 "C4" 0.5 1 0 2] [(2, "3/4")]%Z
    = [{| cols := record_at 1 "C4" 0.5 1 0 2;
          time_signature := Some "3/4" |}] ∧
  (sig_map_loop [(2, "3/4")]%Z 3).2 !! 1%Z = Some (Q2Qc 2).
Proof. split; compute_done. Qed.

(** ** [extract_time_signatures] *)

(** C3. A [time] element without a [beats] child makes
    [extract_time_signatures] raise [AttributeError]: the change points of
    the other measures are not returned, and [main] goes on with none. *)
Theorem missing_beats_child_raises :
  extract_time_signatures
    [measure_1_common_time; measure_2_no_beats; measure_3_waltz]
    = Raise AttributeError ∧
  main_ts_points
    (Parsed [measure_1_common_time; measure_2_no_beats; measure_3_waltz])
    = [] ∧
  extract_time_signatures [measure_1_common_time; measure_3_waltz]
    = Ok [(1, "4/4"); (3, "3/4")]%Z.
Proof. split; [|split]; compute_done. Qed.

(** The sibling path that works: text that is no integer, or no text at
    all, is caught, and only that measure is left out. *)
Lemma malformed_text_is_skipped :
  extract_time_signatures
    [measure_1_common_time; measure_2_bad_beats; measure_3_waltz]
    = Ok [(1, "4/4"); (3, "3/4")]%Z ∧
  extract_time_signatures
    [measure_1_common_time; measure_2_empty_beats; measure_3_waltz]
    = Ok [(1, "4/4"); (3, "3/4")]%Z.
Proof. split; compute_done. Qed.

(** ** The downbeats of an annotation file *)

Lemma StronglySorted_nth_le (l : list Qc) (i j : nat) :
  StronglySorted Qcle l →
  i ≤ j < length l →
  (nth i l (Q2Qc 0) ≤ nth j l (Q2Qc 0))%Qc.
Proof.
  intros Hsorted. revert i j.
  induction Hsorted as [|x l Hl IH Hx]; intros i j Hij; simpl in *; [lia|].
  destruct i as [|i], j as [|j]; try lia.
  - apply Qcle_refl.
  - rewrite Forall_forall in Hx. apply Hx.
    apply list_elem_of_In, nth_In. lia.
  - apply IH. lia.
Qed.

(** [load_downbeats] returns a sorted list that holds 0.0. *)
Lemma load_downbeats_sorted (lines : list ann_line) :
  StronglySorted Qcle (load_downbeats lines) ∧
  Q2Qc 0 ∈ load_downbeats lines.
Proof.
  unfold load_downbeats, sorted. split.
  - apply (StronglySorted_merge_sort Qcle).
  - rewrite merge_sort_Permutation.
    assert (Hgen : ∀ times : list Qc, Q2Qc 0 ∈ times →
      Q2Qc 0 ∈ fold_left (λ times line,
        match parts line !! 2 with
        | Some label =>
            if contains "db" label then
              match stamp line with
              | Some t => times ++ [t]
              | None => times
              end
            else times
        | None => times
        end) lines times).
    { induction lines as [|line lines IH]; intros times Hin; simpl; [done|].
      apply IH. destruct (parts line !! 2) as [label|]; [|done].
      destruct (contains "db" label); [|done].
      destruct (stamp line); [|done]. apply elem_of_app. by left. }
    apply Hgen. by left.
Qed.

(** So the boundaries of an annotation file always exist: [downbeats[-1]]
    does not raise in [extract_notes]. *)
Lemma end_times_load_downbeats (lines : list ann_line) :
  ∃ ets, end_times (load_downbeats lines) = Ok ets.
Proof.
  destruct (load_downbeats_sorted lines) as [_ Hzero].
  unfold end_times, getlast.
  destruct (load_downbeats lines) as [|d ds] eqn:Hd;
    [by apply elem_of_nil in Hzero|].
  destruct (last (d :: ds)) as [x|] eqn:Hlast; [by eexists|].
  by apply last_None in Hlast.
Qed.

(** The measure found for an onset holds it: its downbeat is the greatest
    one at or before the onset. *)
Lemma measure_idx_contains (lines : list ann_line) (onset : Qc) :
  let downbeats := load_downbeats lines in
  let idx := measure_idx downbeats onset in
  (∀ i : nat, (Z.of_nat i ≤ idx)%Z → (nth i downbeats (Q2Qc 0) ≤ onset)%Qc) ∧
  (∀ i : nat, (idx < Z.of_nat i)%Z → i < length downbeats →
     (onset < nth i downbeats (Q2Qc 0))%Qc).
Proof.
  intros downbeats idx. subst idx. unfold measure_idx.
  destruct (load_downbeats_sorted lines) as [Hsorted _]. fold downbeats in Hsorted.
  destruct (bisect_right_sorted downbeats onset) as [Hbelow Habove].
  - intros i j Hij. by apply StronglySorted_nth_le.
  - split.
    + intros i Hi. apply Hbelow. lia.
    + intros i Hi Hlen. apply Habove. lia.
Qed.

(** The upper half of the guard, [idx >= len(end_times)], never holds. *)
Lemma upper_guard_never_fires (downbeats ets : list Qc) (onset : Qc) :
  end_times downbeats = Ok ets →
  (measure_idx downbeats onset < Z.of_nat (length ets))%Z.
Proof.
  intros (Hlen & _ & _)%end_times_inv. rewrite Hlen. unfold measure_idx.
  pose proof (bisect_right_le_length downbeats onset). lia.
Qed.

(** X7. A note at or after every downbeat, the synthetic final boundary or
    not, is not skipped: it is given the last measure. *)
Lemma late_note_in_last_measure (downbeats ets : list Qc)
    (sig_map : gmap Z Qc) (n : Note) :
  end_times downbeats = Ok ets →
  (∀ d, d ∈ downbeats → (d ≤ start n)%Qc) →
  note_body downbeats ets sig_map n ≠ Ok None ∧
  ∀ r, note_body downbeats ets sig_map n = Ok (Some r) →
    measure r = Z.of_nat (length downbeats).
Proof.
  intros Hets Hall.
  destruct (end_times_inv _ _ Hets) as (Hlen & Hne & _).
  pose proof (measure_idx_after_all _ _ Hall) as Hidx.
  assert (Hpos : 0 < length downbeats)
    by (destruct downbeats; simpl; [done|lia]).
  destruct (note_body_cases downbeats ets sig_map n Hlen)
    as [[Hneg _]|(rs & re & r' & _ & _ & _ & H & Hm & _)].
  - lia.
  - split; [congruence|]. intros r Hr. assert (r = r') as -> by congruence.
    rewrite Hm. lia.
Qed.

(** ** The missing score table *)

(** Without [midi_score.csv] next to the performance table the merge gives
    no rows and does not raise. *)
Lemma merge_without_score_table (perf_csv : string) (perf_df : list table_row) :
  merge_perf_pure perf_csv perf_df None = Ok [].
Proof. done. Qed.

(** ** Rounding and the order of the spans *)

Lemma round_half_even_close (q : Q) :
  (Z.abs (2 * (round_half_even q * Zpos (Qden q) - Qnum q)) ≤ Zpos (Qden q))%Z.
Proof.
  unfold round_half_even. destruct q as [n d]. cbn [Qnum Qden].
  pose proof (Z.div_mod n (Zpos d) ltac:(lia)) as Hdm.
  pose proof (Z.mod_pos_bound n (Zpos d) ltac:(lia)) as Hr.
  set (f := (n / Zpos d)%Z) in *. set (r := (n mod Zpos d)%Z) in *.
  clearbody f r.
  destruct (Z.compare_spec (2 * r) (Zpos d)) as [Hc|Hc|Hc].
  - destruct (Z.even f); lia.
  - lia.
  - lia.
Qed.

Lemma round_half_even_mono (q1 q2 : Q) :
  (q1 < q2)%Q → (round_half_even q1 ≤ round_half_even q2)%Z.
Proof.
  intros Hlt. unfold Qlt in Hlt.
  pose proof (round_half_even_close q1) as H1.
  pose proof (round_half_even_close q2) as H2.
  destruct q1 as [n1 d1], q2 as [n2 d2]. simpl in *.
  set (a := round_half_even (n1 # d1)) in *.
  set (b := round_half_even (n2 # d2)) in *.
  destruct (Z_le_gt_dec a b) as [Hle|Hgt]; [done|]. exfalso.
  assert (Ha : (2 * a * Zpos d1 ≤ Zpos d1 + 2 * n1)%Z) by lia.
  assert (Hb : (2 * n2 ≤ Zpos d2 + 2 * b * Zpos d2)%Z) by lia.
  assert (Ha' : (2 * a * Zpos d1 * Zpos d2
                 ≤ (Zpos d1 + 2 * n1) * Zpos d2)%Z) by nia.
  assert (Hb' : (2 * n2 * Zpos d1
                 ≤ (Zpos d2 + 2 * b * Zpos d2) * Zpos d1)%Z) by nia.
  assert (Hab : (2 * (b + 1) * Zpos d1 * Zpos d2
                 ≤ 2 * a * Zpos d1 * Zpos d2)%Z) by nia.
  nia.
Qed.

(** [round] keeps the order. *)
Lemma round_mono (x y : Qc) (ndigits : nat) :
  (x ≤ y)%Qc → (round x ndigits ≤ round y ndigits)%Qc.
Proof.
  intros Hle. destruct (decide (x = y)) as [->|Hne]; [apply Qcle_refl|].
  assert (Hlt : (x < y)%Q).
  { apply Qcle_lt_or_eq in Hle as [Hlt|Heq]; [exact Hlt|done]. }
  unfold round, Qcle. destruct ndigits as [|k]; simpl.
  - rewrite !Qred_correct. rewrite <- Zle_Qle.
    by apply round_half_even_mono.
  - rewrite !Qred_correct. unfold Qle. simpl.
    apply Z.mul_le_mono_nonneg_r; [lia|].
    apply round_half_even_mono. apply Qmult_lt_compat_r; [done|exact Hlt].
Qed.

Lemma range_from_1 (m : Z) :
  range 1 m = range 1 (1 + Z.of_nat (Z.to_nat (m - 1))).
Proof. unfold range. f_equal. f_equal. lia. Qed.

(** With durations that are not negative the prefix sums do not decrease. *)
Lemma prefix_sum_mono (sig_map : gmap Z Qc) (m1 m2 : Z) :
  (∀ m, (Q2Qc 0 ≤ sig_map_get sig_map m)%Qc) →
  (m1 ≤ m2)%Z →
  (sum (sig_map_get sig_map <$> range 1 m1)
   ≤ sum (sig_map_get sig_map <$> range 1 m2))%Qc.
Proof.
  intros Hpos Hle. rewrite (range_from_1 m1), (range_from_1 m2).
  assert (Hn : Z.to_nat (m1 - 1) ≤ Z.to_nat (m2 - 1)) by lia.
  induction Hn as [|n Hn IH]; [apply Qcle_refl|].
  eapply Qcle_trans; [exact IH|].
  replace (1 + Z.of_nat (S n))%Z with ((1 + Z.of_nat n) + 1)%Z by lia.
  rewrite range_snoc by lia.
  rewrite fmap_app, list_fmap_singleton, sum_snoc.
  rewrite <- (Qcplus_0_r (sum _)) at 1.
  apply Qcplus_le_compat; [apply Qcle_refl|apply Hpos].
Qed.

(** The durations stored in [sig_map] are those of 4/4 and of the change
    points. *)
Lemma sig_map_loop_values (ts_points : list (Z * string)) (n : nat) :
  let sigs := "4/4" :: ts_points.*2 in
  (sig_map_loop ts_points n).1 ∈ sigs ∧
  ∀ k v, (sig_map_loop ts_points n).2 !! k = Some v →
    ∃ s, s ∈ sigs ∧ v = sig_to_duration (Some s).
Proof.
  intros sigs. induction n as [|n [IH1 IH2]].
  - split; [by left|]. intros k v Hk.
    change (sig_map_loop ts_points 0).2 with (∅ : gmap Z Qc) in Hk.
    by rewrite lookup_empty in Hk.
  - rewrite sig_map_loop_S. cbn zeta. cbn [fst snd].
    assert (Hsig : effective_sig ts_points (Z.of_nat n + 1)
                     (sig_map_loop ts_points n).1 ∈ sigs).
    { unfold effective_sig.
      destruct (find _ (reverse ts_points)) as [[m s]|] eqn:Hfind; [|done].
      apply find_some in Hfind as [Hin _].
      apply list_elem_of_In in Hin. rewrite elem_of_reverse in Hin. right.
      apply list_elem_of_fmap. by exists (m, s). }
    split; [done|]. intros k v.
    destruct (decide (Z.of_nat n + 1 = k)%Z) as [<-|Hne].
    + rewrite lookup_insert_eq. intros [= <-]. eauto.
    + rewrite lookup_insert_ne by done. apply IH2.
Qed.

(** X9. When no change point has a negative duration, the measure starts
    written into the table do not decrease with the measure index, and no
    measure ends before it starts. *)
Lemma spans_do_not_decrease (downbeats : list Qc) (pm : list Instrument)
    (ts_points : list (Z * string)) (records : list note_record)
    (r1 r2 : note_record) :
  (∀ m s, (m, s) ∈ ts_points → (Q2Qc 0 ≤ sig_to_duration (Some s))%Qc) →
  extract_notes_from downbeats pm ts_points = Ok records →
  r1 ∈ records →
  r2 ∈ records →
  (measure r1 ≤ measure r2)%Z →
  (measure_start r1 ≤ measure_end r1)%Qc ∧
  (measure_start r1 ≤ measure_start r2)%Qc.
Proof.
  intros Hpos Hok Hr1 Hr2 Hle.
  destruct (extract_notes_from_spans _ _ _ _ _ Hok Hr1) as (_ & -> & ->).
  destruct (extract_notes_from_spans _ _ _ _ _ Hok Hr2) as (_ & -> & _).
  set (sig_map := (sig_map_loop ts_points (length downbeats)).2).
  assert (Hget : ∀ m, (Q2Qc 0 ≤ sig_map_get sig_map m)%Qc).
  { intros m. unfold sig_map_get.
    destruct (sig_map !! m) as [v|] eqn:Hv; simpl; [|done].
    destruct (sig_map_loop_values ts_points (length downbeats)) as [_ Hvals].
    destruct (Hvals m v Hv) as (s & Hs & ->).
    apply elem_of_cons in Hs as [->|Hs]; [done|].
    apply list_elem_of_fmap in Hs as ([m' s'] & -> & Hin). by eapply Hpos. }
  split; apply round_mono.
  - rewrite <- (Qcplus_0_r (sum _)) at 1.
    apply Qcplus_le_compat; [apply Qcle_refl|apply Hget].
  - by apply prefix_sum_mono.
Qed.

(** ** [extract_notes]: the whole table *)

Section CollectExact.

Context {A B : Type} (f : A → result (option B)).

(** What the loop over the notes has collected when it ends: the record of
    every note that has one, in the order of the notes. *)
Lemma for_each_step_exact (xs : list A) (acc out : list B) :
  for_each (λ (records : list B) (x : A),
     r ← f x;
     Ok (match r with
         | Some rec => records ++ [rec]
         | None => records
         end)) xs acc = Ok out →
  ∃ rs, Forall2 (λ x r, f x = Ok r) xs rs ∧ out = acc ++ omap id rs.
Proof.
  revert acc. induction xs as [|x xs IH]; intros acc; simpl.
  - intros [= <-]. exists []. split; [constructor|by rewrite app_nil_r].
  - destruct (f x) as [[rec|]|e] eqn:Hx; simpl; [| |done].
    + intros (rs & Hrs & ->)%IH. exists (Some rec :: rs).
      split; [by constructor|]. simpl. by rewrite <- app_assoc.
    + intros (rs & Hrs & ->)%IH. exists (None :: rs).
      split; [by constructor|done].
Qed.

(** And the other way round: when every note has an outcome, the loop ends
    with the records of the notes that have one. *)
Lemma for_each_step_intro (xs : list A) (rs : list (option B)) (acc : list B) :
  Forall2 (λ x r, f x = Ok r) xs rs →
  for_each (λ (records : list B) (x : A),
     r ← f x;
     Ok (match r with
         | Some rec => records ++ [rec]
         | None => records
         end)) xs acc = Ok (acc ++ omap id rs).
Proof.
  intros Hrs. revert acc.
  induction Hrs as [|x r xs rs Hx _ IH]; intros acc; simpl.
  - by rewrite app_nil_r.
  - rewrite Hx. simpl. rewrite IH. destruct r as [rec|]; simpl; [|done].
    by rewrite <- app_assoc.
Qed.

End CollectExact.

(** The two loops of [extract_notes] together are one loop over the notes of
    all instruments. *)
Lemma for_each_instruments {S} (body : S → Note → result S)
    (pm : list Instrument) (s : S) :
  for_each (λ s inst, for_each body (notes inst) s) pm s =
  for_each body (concat (notes <$> pm)) s.
Proof.
  revert s. induction pm as [|inst pm IH]; intros s; simpl; [done|].
  rewrite for_each_app.
  destruct (for_each body (notes inst) s) as [s'|e]; simpl; [apply IH|done].
Qed.

(** The notes of a file that get a record: those with a downbeat at or
    before their onset. *)
Lemma note_body_Some_iff (downbeats ets : list Qc) (sig_map : gmap Z Qc)
    (n : Note) (r : option note_record) :
  length ets = length downbeats →
  note_body downbeats ets sig_map n = Ok r →
  (is_Some r ↔ (0 ≤ measure_idx downbeats (start n))%Z).
Proof.
  intros Hlen Hbody.
  destruct (note_body_cases downbeats ets sig_map n Hlen)
    as [[Hneg H]|(rs & re & r' & Hidx & _ & _ & H & _)].
  - rewrite H in Hbody. injection Hbody as <-. split; [|lia].
    by intros [? ?].
  - rewrite H in Hbody. injection Hbody as <-. split; [done|by eexists].
Qed.

(** What [extract_notes] returns, in full: the records of the notes with a
    downbeat at or before their onset, sorted. *)
Lemma extract_notes_from_exact (downbeats : list Qc) (pm : list Instrument)
    (ts_points : list (Z * string)) (records : list note_record) :
  extract_notes_from downbeats pm ts_points = Ok records →
  ∃ ets rs,
    end_times downbeats = Ok ets ∧
    Forall2 (λ n r,
      note_body downbeats ets
        (sig_map_loop ts_points (length downbeats)).2 n = Ok r)
      (concat (notes <$> pm)) rs ∧
    sort_values_by_onset (omap id rs) = Ok records ∧
    records ≠ [].
Proof.
  intros Hok.
  destruct (extract_notes_from_inv _ _ _ _ Hok) as (ets & Hets & Hne & _).
  revert Hok. unfold extract_notes_from. rewrite Hets. simpl.
  rewrite for_each_instruments.
  destruct (for_each _ (concat (notes <$> pm)) []) as [out|e] eqn:Hloop;
    [simpl|done].
  apply for_each_step_exact in Hloop as (rs & Hrs & ->). simpl.
  intros Hsort. by exists ets, rs.
Qed.

(** And the other way round: with its boundaries, [extract_notes] is the
    sort of the records of the notes, and the loop over the notes raises
    nothing. *)
Lemma extract_notes_from_sort (downbeats ets : list Qc)
    (pm : list Instrument) (ts_points : list (Z * string)) :
  end_times downbeats = Ok ets →
  ∃ rs,
    Forall2 (λ n r,
      note_body downbeats ets
        (sig_map_loop ts_points (length downbeats)).2 n = Ok r)
      (concat (notes <$> pm)) rs ∧
    extract_notes_from downbeats pm ts_points =
      sort_values_by_onset (omap id rs).
Proof.
  intros Hets. destruct (end_times_inv _ _ Hets) as (Hlen & _ & _).
  set (sig_map := (sig_map_loop ts_points (length downbeats)).2).
  assert (Hrs : ∃ rs, Forall2 (λ n r,
    note_body downbeats ets sig_map n = Ok r) (concat (notes <$> pm)) rs).
  { induction (concat (notes <$> pm)) as [|n ns [rs IH]];
      [exists []; constructor|].
    destruct (note_body downbeats ets sig_map n) as [r|e] eqn:Hn.
    - exists (r :: rs). by constructor.
    - by apply note_body_no_raise in Hn. }
  destruct Hrs as [rs Hrs]. exists rs. split; [done|].
  unfold extract_notes_from. rewrite Hets. simpl.
  rewrite for_each_instruments. fold sig_map.
  by rewrite (for_each_step_intro _ _ rs).
Qed.

Lemma length_omap_note_body (downbeats ets : list Qc) (sig_map : gmap Z Qc)
    (ns : list Note) (rs : list (option note_record)) :
  length ets = length downbeats →
  Forall2 (λ n r, note_body downbeats ets sig_map n = Ok r) ns rs →
  length (omap id rs) =
  length (filter (λ n, 0 ≤ measure_idx downbeats (start n))%Z ns).
Proof.
  intros Hlen Hrs. induction Hrs as [|n r ns rs Hn _ IH]; [done|].
  pose proof (note_body_Some_iff _ _ _ _ _ Hlen Hn) as Hiff.
  rewrite filter_cons. destruct r as [rec|]; simpl.
  - rewrite decide_True by (apply Hiff; by eexists). simpl. f_equal.
    exact IH.
  - rewrite decide_False; [exact IH|]. intros Hidx. apply Hiff in Hidx.
    by destruct Hidx.
Qed.

#[local] Instance onset_le_total : Total onset_le.
Proof.
  intros r1 r2. unfold onset_le.
  destruct (onset r1) as [a| | |], (onset r2) as [b| | |]; simpl; auto.
  destruct (total Qcle a b); auto.
Qed.

#[local] Instance onset_le_trans : Transitive onset_le.
Proof.
  intros r1 r2 r3. unfold onset_le.
  destruct (onset r1) as [a| | |], (onset r2) as [b| | |],
    (onset r3) as [c| | |]; simpl; intros [H12|H12] [H23|H23];
    try done; auto.
  right. by etrans.
Qed.

(** What [sort_values] returns is in order: every row may come before the
    rows after it. *)
Lemma sort_values_by_onset_sorted (records out : list note_record) :
  sort_values_by_onset records = Ok out → StronglySorted onset_le out.
Proof.
  unfold sort_values_by_onset. destruct records as [|r0 records]; [done|].
  intros [= <-]. generalize (r0 :: records). clear. intros records.
  apply StronglySorted_app_2.
  - intros r1 r2 _ [Hnan _]%list_elem_of_filter. by left.
  - apply (StronglySorted_merge_sort onset_le).
  - induction records as [|r records IH]; [constructor|].
    rewrite filter_cons. destruct (decide (onset r = np.NaN)); [|done].
    constructor; [done|]. apply Forall_forall.
    intros r' [Hnan _]%list_elem_of_filter. by left.
Qed.

(** X5. The table [extract_notes] returns is sorted by onset, the rows
    whose onset is [nan] coming last: of two rows, the later one has an
    onset that is [nan] or at least that of the earlier one. It has one row
    for each note that has a downbeat at or before its onset. *)
Theorem extract_notes_sorted_and_counted (downbeats : list Qc)
    (pm : list Instrument) (ts_points : list (Z * string))
    (records : list note_record) :
  extract_notes_from downbeats pm ts_points = Ok records →
  StronglySorted
    (λ r1 r2, onset r2 = np.NaN ∨ np.le (onset r1) (onset r2)) records ∧
  length records =
    length (filter (λ n, 0 ≤ measure_idx downbeats (start n))%Z
              (concat (notes <$> pm))).
Proof.
  intros (ets & rs & Hets & Hrs & Hsort & _)%extract_notes_from_exact.
  destruct (end_times_inv _ _ Hets) as (Hlen & _ & _). split.
  - by apply (sort_values_by_onset_sorted (omap id rs)).
  - apply sort_values_by_onset_inv in Hsort as [_ ->].
    by eapply length_omap_note_body.
Qed.

Lemma extract_notes_sorted_and_counted_witness :
  StronglySorted
    (λ r1 r2, onset r2 = np.NaN ∨ np.le (onset r1) (onset r2))
    [record_at 1 "C4" 0.5 1 0 2;
     {| measure := 3; note := "G4"; onset := np.Inf; offset := np.Inf;
        measure_start := Q2Qc 4; measure_end := Q2Qc 6 |};
     {| measure := 3; note := "E4"; onset := np.NaN; offset := np.Inf;
        measure_start := Q2Qc 4; measure_end := Q2Qc 6 |}] ∧
  length [record_at 1 "C4" 0.5 1 0 2;
     {| measure := 3; note := "G4"; onset := np.Inf; offset := np.Inf;
        measure_start := Q2Qc 4; measure_end := Q2Qc 6 |};
     {| measure := 3; note := "E4"; onset := np.NaN; offset := np.Inf;
        measure_start := Q2Qc 4; measure_end := Q2Qc 6 |}] =
    length (filter (λ n, 0 ≤ measure_idx [Q2Qc 0; Q2Qc 2; Q2Qc 2] (start n))%Z
              (concat (notes <$>
                [{| notes := [note_at 64 2 3; note_at 67 2.5 3;
                              note_at 60 0.5 1] |}]))).
Proof.
  apply (extract_notes_sorted_and_counted [Q2Qc 0; Q2Qc 2; Q2Qc 2]
    [{| notes := [note_at 64 2 3; note_at 67 2.5 3; note_at 60 0.5 1] |}]
    []).
  compute_done.
Defined.

Lemma filter_nil_iff_not {A} (P : A → Prop) `{∀ x, Decision (P x)}
    (l : list A) :
  filter P l = [] ↔ ∀ x, x ∈ l → ¬ P x.
Proof.
  induction l as [|a l IH]; [by split; [intros _ x Hx%elem_of_nil|]|].
  rewrite filter_cons. destruct (decide (P a)) as [Ha|Ha].
  - split; [done|]. intros Hall. exfalso. apply (Hall a); [by left|done].
  - rewrite IH. split.
    + intros Hall x [->|Hx]%elem_of_cons; [done|by apply Hall].
    + intros Hall x Hx. apply Hall. by right.
Qed.

Lemma elem_of_concat {A} (x : A) (ls : list (list A)) :
  x ∈ concat ls ↔ ∃ l, x ∈ l ∧ l ∈ ls.
Proof.
  rewrite list_elem_of_In, in_concat. split.
  - intros (l & Hl & Hx). exists l. by rewrite !list_elem_of_In.
  - intros (l & Hx & Hl). exists l. by rewrite <- !list_elem_of_In.
Qed.

(** X3. On the downbeats of an annotation file, [extract_notes] raises
    nothing but the [KeyError] of the empty table: no position is out of
    range, and the division by the length of a measure raises nothing, a
    length of zero included. *)
Theorem extract_notes_raises_only (pm : list Instrument)
    (annotation : list ann_line) (ts_points : list (Z * string)) (e : exn) :
  extract_notes pm annotation ts_points = Raise e →
  e = KeyError.
Proof.
  unfold extract_notes.
  destruct (end_times_load_downbeats annotation) as [ets Hets].
  destruct (extract_notes_from_sort _ _ pm ts_points Hets)
    as (rs & _ & ->).
  unfold sort_values_by_onset. destruct (omap id rs); [|done].
  by intros [= <-].
Qed.

Lemma extract_notes_raises_only_witness :
  extract_notes [{| notes := [note_at 20 (-1) 2] |}] annotation_024 []
    = Raise KeyError ∧
  KeyError = KeyError.
Proof.
  assert (Hraise : extract_notes [{| notes := [note_at 20 (-1) 2] |}]
    annotation_024 [] = Raise KeyError) by compute_done.
  split; [exact Hraise|].
  exact (extract_notes_raises_only _ _ _ _ Hraise).
Defined.

(** X4. [extract_notes] raises [KeyError] exactly when no note of the file
    has a downbeat at or before its onset, a file without notes included: it
    never returns an empty table. *)
Theorem extract_notes_KeyError_iff (downbeats ets : list Qc)
    (pm : list Instrument) (ts_points : list (Z * string)) :
  end_times downbeats = Ok ets →
  (extract_notes_from downbeats pm ts_points = Raise KeyError ↔
   ∀ inst n, inst ∈ pm → n ∈ notes inst →
     (measure_idx downbeats (start n) < 0)%Z) ∧
  extract_notes_from downbeats pm ts_points ≠ Ok [].
Proof.
  intros Hets. destruct (end_times_inv _ _ Hets) as (Hlen & _ & _).
  destruct (extract_notes_from_sort _ _ pm ts_points Hets)
    as (rs & Hrs & ->).
  pose proof (length_omap_note_body _ _ _ _ _ Hlen Hrs) as Hlength.
  assert (Hnil : omap id rs = [] ↔
    ∀ inst n, inst ∈ pm → n ∈ notes inst →
      (measure_idx downbeats (start n) < 0)%Z).
  { rewrite <- length_zero_iff_nil, Hlength, length_zero_iff_nil.
    rewrite filter_nil_iff_not. split.
    - intros Hnone inst n Hinst Hn.
      assert (Hn' : n ∈ concat (notes <$> pm)).
      { apply elem_of_concat. exists (notes inst). split; [done|].
        by apply list_elem_of_fmap_2. }
      specialize (Hnone n Hn'). lia.
    - intros Hall n
        (ns & Hn & (inst & -> & Hinst)%list_elem_of_fmap)%elem_of_concat.
      specialize (Hall inst n Hinst Hn). lia. }
  split; [split|].
  - intros Hraise. apply Hnil. unfold sort_values_by_onset in Hraise.
    by destruct (omap id rs).
  - intros Hall. apply Hnil in Hall. by rewrite Hall.
  - intros [Hne Hperm]%sort_values_by_onset_inv.
    by apply Permutation_nil in Hperm.
Qed.

Lemma extract_notes_KeyError_iff_witness :
  extract_notes_from downbeats_024 [] [] = Raise KeyError ∧
  extract_notes_from downbeats_024 [{| notes := [note_at 20 (-1) 2] |}] []
    = Raise KeyError.
Proof.
  split.
  - apply (extract_notes_KeyError_iff downbeats_024
      [Q2Qc 2; Q2Qc 4; Q2Qc 6] [] []); [compute_done|].
    intros inst n Hinst. by apply elem_of_nil in Hinst.
  - apply (extract_notes_KeyError_iff downbeats_024
      [Q2Qc 2; Q2Qc 4; Q2Qc 6] [{| notes := [note_at 20 (-1) 2] |}] []);
      [compute_done|].
    intros inst n ->%list_elem_of_singleton ->%list_elem_of_singleton.
    compute_done.
Defined.

(** X6. Every row of the table has a measure index between 1 and the
    number of downbeats. *)
Theorem record_measure_in_range (downbeats : list Qc) (pm : list Instrument)
    (ts_points : list (Z * string)) (records : list note_record)
    (r : note_record) :
  extract_notes_from downbeats pm ts_points = Ok records →
  r ∈ records →
  (1 ≤ measure r ≤ Z.of_nat (length downbeats))%Z.
Proof.
  intros (ets & Hets & _ & Hall)%extract_notes_from_inv Hr.
  destruct (Hall r Hr) as (inst & n & _ & _ & Hbody).
  destruct (end_times_inv _ _ Hets) as (Hlen & _ & _).
  pose proof (upper_guard_never_fires _ _ (start n) Hets) as Hup.
  destruct (note_body_cases downbeats ets
    (sig_map_loop ts_points (length downbeats)).2 n Hlen)
    as [[_ H]|(rs & re & r' & Hidx & _ & _ & H & Hm & _)];
    try congruence.
  assert (r' = r) as -> by congruence. lia.
Qed.

Lemma record_measure_in_range_witness :
  (1 ≤ measure (record_at 3 "G4" 4.25 4.625 3.5 5)
     ≤ Z.of_nat (length downbeats_024))%Z.
Proof.
  apply (record_measure_in_range downbeats_024 pm_three_measures
    [(2, "3/4")]%Z
    [record_at 1 "C4" 0.5 1 0 2; record_at 2 "E4" 2.375 2.75 2 3.5;
     record_at 3 "G4" 4.25 4.625 3.5 5]); compute_done.
Defined.

Lemma late_note_in_last_measure_witness :
  note_body downbeats_024 [Q2Qc 2; Q2Qc 4; Q2Qc 6] ∅ (note_at 61 100 101)
    ≠ Ok None ∧
  ∀ r, note_body downbeats_024 [Q2Qc 2; Q2Qc 4; Q2Qc 6] ∅
         (note_at 61 100 101) = Ok (Some r) →
    measure r = 3%Z.
Proof.
  apply (late_note_in_last_measure downbeats_024
    [Q2Qc 2; Q2Qc 4; Q2Qc 6] ∅ (note_at 61 100 101)); [compute_done|].
  intros d Hd. unfold downbeats_024 in Hd.
  repeat (apply elem_of_cons in Hd as [->|Hd]); [compute_done..|].
  by apply elem_of_nil in Hd.
Defined.

(** X8. All rows of one measure carry the same measure start and the same
    measure end, so the frame [merge_perf_pure] reads off the first row of a
    measure is the frame of each of its rows. *)
Theorem rows_of_a_measure_share_span (downbeats : list Qc)
    (pm : list Instrument) (ts_points : list (Z * string))
    (records : list note_record) (r1 r2 : note_record) :
  extract_notes_from downbeats pm ts_points = Ok records →
  r1 ∈ records →
  r2 ∈ records →
  measure r1 = measure r2 →
  measure_start r1 = measure_start r2 ∧ measure_end r1 = measure_end r2.
Proof.
  intros Hok Hr1 Hr2 Hm.
  destruct (extract_notes_from_spans _ _ _ _ _ Hok Hr1) as (_ & -> & ->).
  destruct (extract_notes_from_spans _ _ _ _ _ Hok Hr2) as (_ & -> & ->).
  by rewrite Hm.
Qed.

Lemma rows_of_a_measure_share_span_witness :
  measure_start (record_at 2 "E4" 2.375 2.75 2 3.5)
    = measure_start (record_at 2 "G4" 3.125 3.5 2 3.5) ∧
  measure_end (record_at 2 "E4" 2.375 2.75 2 3.5)
    = measure_end (record_at 2 "G4" 3.125 3.5 2 3.5).
Proof.
  apply (rows_of_a_measure_share_span downbeats_024
    [{| notes := [note_at 64 2.5 3] |}; {| notes := [note_at 67 3.5 4] |}]
    [(2, "3/4")]%Z
    [record_at 2 "E4" 2.375 2.75 2 3.5; record_at 2 "G4" 3.125 3.5 2 3.5]);
    compute_done.
Defined.

Lemma spans_do_not_decrease_witness :
  (measure_start (record_at 1 "C4" 0.5 1 0 2)
     ≤ measure_end (record_at 1 "C4" 0.5 1 0 2))%Qc ∧
  (measure_start (record_at 1 "C4" 0.5 1 0 2)
     ≤ measure_start (record_at 3 "G4" 4.25 4.625 3.5 5))%Qc.
Proof.
  apply (spans_do_not_decrease downbeats_024 pm_three_measures
    [(2, "3/4")]%Z
    [record_at 1 "C4" 0.5 1 0 2; record_at 2 "E4" 2.375 2.75 2 3.5;
     record_at 3 "G4" 4.25 4.625 3.5 5]); try compute_done.
  intros m s [= -> ->]%list_elem_of_singleton. compute_done.
Defined.

(** The order can break: a negative beats count gives a negative duration,
    and a measure that ends before it starts. *)
Lemma negative_beats_reverse_the_span :
  extract_notes_from downbeats_024 [{| notes := [note_at 60 0.5 1] |}]
    [(1, "-3/4")]%Z
  = Ok [record_at 1 "C4" (-0.375) (-0.75) 0 (-1.5)].
Proof. compute_done. Qed.

(** X2. The measure found for an onset among the downbeats of an annotation
    file is the one whose downbeat is the greatest at or before the onset:
    the downbeats up to it are at or before the onset, the later ones after
    it. *)
Theorem measure_idx_is_greatest_downbeat (lines : list ann_line)
    (onset : Qc) (i : nat) :
  i < length (load_downbeats lines) →
  ((Z.of_nat i ≤ measure_idx (load_downbeats lines) onset)%Z ↔
   (nth i (load_downbeats lines) (Q2Qc 0) ≤ onset)%Qc).
Proof.
  intros Hi. destruct (measure_idx_contains lines onset) as [Hbelow Habove].
  split; [apply Hbelow|].
  intros Hle.
  destruct (Z_le_gt_dec (Z.of_nat i)
    (measure_idx (load_downbeats lines) onset)) as [|Hgt]; [done|].
  exfalso. eapply Qcle_not_lt; [exact Hle|]. apply Habove; [lia|done].
Qed.

Lemma measure_idx_is_greatest_downbeat_witness :
  (Z.of_nat 1 ≤ measure_idx (load_downbeats annotation_024) (Q2Qc 2.5))%Z ↔
  (nth 1 (load_downbeats annotation_024) (Q2Qc 0) ≤ Q2Qc 2.5)%Qc.
Proof.
  apply (measure_idx_is_greatest_downbeat annotation_024 (Q2Qc 2.5) 1).
  compute_done.
Defined.

(** ** [load_downbeats] *)

(** X1. [load_downbeats] returns, in ascending order, 0.0 and the time
    stamps of the lines that have three fields or more, "db" in the third
    and a first field that reads as a float; nothing is removed, duplicates
    neither. *)
Theorem load_downbeats_sorted_stamps (lines : list ann_line) :
  StronglySorted Qcle (load_downbeats lines) ∧
  load_downbeats lines ≡ₚ
    Q2Qc 0 :: omap (λ line,
      match parts line !! 2 with
      | Some label => if contains "db" label then stamp line else None
      | None => None
      end) lines.
Proof.
  split; [apply load_downbeats_sorted|].
  unfold load_downbeats, sorted. rewrite merge_sort_Permutation.
  set (accepted := λ line : ann_line,
    match parts line !! 2 with
    | Some label => if contains "db" label then stamp line else None
    | None => None
    end).
  assert (Hgen : ∀ times : list Qc,
    fold_left (λ times line,
      match parts line !! 2 with
      | Some label =>
          if contains "db" label then
            match stamp line with
            | Some t => times ++ [t]
            | None => times
            end
          else times
      | None => times
      end) lines times = times ++ omap accepted lines).
  { induction lines as [|line lines IH]; intros times; simpl.
    - by rewrite app_nil_r.
    - rewrite IH. unfold accepted at 2.
      destruct (parts line !! 2) as [label|]; [|done].
      destruct (contains "db" label); [|done].
      destruct (stamp line) as [t|]; [|done].
      by rewrite <- app_assoc. }
  by rewrite Hgen.
Qed.

(** ** [extract_notes]: the times of a row *)

Lemma sig_map_get_nonneg (ts_points : list (Z * string)) (n : nat) (m : Z) :
  (∀ m s, (m, s) ∈ ts_points → (Q2Qc 0 ≤ sig_to_duration (Some s))%Qc) →
  (Q2Qc 0 ≤ sig_map_get (sig_map_loop ts_points n).2 m)%Qc.
Proof.
  intros Hpos. unfold sig_map_get.
  destruct ((sig_map_loop ts_points n).2 !! m) as [v|] eqn:Hv; simpl; [|done].
  destruct (sig_map_loop_values ts_points n) as [_ Hvals].
  destruct (Hvals m v Hv) as (s & Hs & ->).
  apply elem_of_cons in Hs as [->|Hs]; [done|].
  apply list_elem_of_fmap in Hs as ([m' s'] & -> & Hin). by eapply Hpos.
Qed.



(** In a measure with two equal boundaries it is not. *)
Lemma normalized_time_zero_length (t real_start norm_duration m_start : Qc) :
  np.isfinite (normalized_time t real_start real_start norm_duration m_start)
  = false.
Proof.
  unfold normalized_time. cbn [np.sub np.neg np.add np.truediv].
  rewrite decide_True by (by apply Qcminus_eq_0).
  unfold np.inf_of_sign.
  repeat (case_decide; cbn [np.mul np.add np.round np.isfinite];
          unfold np.inf_of_sign); done.
Qed.


(** ** A measure of length zero *)

(** A note that gets a record has it in the table. *)
Lemma extract_notes_from_has_record (downbeats ets : list Qc)
    (pm : list Instrument) (ts_points : list (Z * string))
    (inst : Instrument) (n : Note) (r : note_record) :
  end_times downbeats = Ok ets →
  inst ∈ pm →
  n ∈ notes inst →
  note_body downbeats ets (sig_map_loop ts_points (length downbeats)).2 n
    = Ok (Some r) →
  ∃ records,
    extract_notes_from downbeats pm ts_points = Ok records ∧ r ∈ records.
Proof.
  intros Hets Hinst Hn Hbody.
  destruct (extract_notes_from_sort _ _ pm ts_points Hets)
    as (rs & Hrs & ->).
  assert (Hn' : n ∈ concat (notes <$> pm)).
  { apply elem_of_concat. exists (notes inst). split; [done|].
    by apply list_elem_of_fmap_2. }
  apply list_elem_of_lookup_1 in Hn' as [i Hi].
  destruct (Forall2_lookup_l _ _ _ _ _ Hrs Hi) as (r' & Hr' & Hb).
  rewrite Hbody in Hb. injection Hb as <-.
  assert (Hin : r ∈ omap id rs).
  { apply list_elem_of_omap. exists (Some r).
    split; [by eapply list_elem_of_lookup_2|done]. }
  destruct (sort_values_by_onset_ok (omap id rs)) as [records Hsort].
  { intros Hnil. rewrite Hnil in Hin. by apply elem_of_nil in Hin. }
  exists records. split; [done|].
  apply sort_values_by_onset_inv in Hsort as [_ Hperm]. by rewrite Hperm.
Qed.

(** C10, as stated, fails: the division is numpy's and raises nothing. With
    the single downbeat 0 the synthetic end is 0, and the note from 0.5 s to
    1.0 s gets a record whose onset and offset are [inf]. With the downbeats
    0, 2, 2 the note from 2.5 s to 3.0 s lands in the third measure, which
    runs from 2 to 2, and gets such a record as well. *)
Lemma zero_length_measure_raises_nothing :
  end_times [Q2Qc 0] = Ok [Q2Qc 0] ∧
  extract_notes_from [Q2Qc 0] [{| notes := [note_at 60 0.5 1] |}] []
    = Ok [{| measure := 1; note := "C4"; onset := np.Inf; offset := np.Inf;
             measure_start := Q2Qc 0; measure_end := Q2Qc 2 |}] ∧
  end_times [Q2Qc 0; Q2Qc 2; Q2Qc 2] = Ok [Q2Qc 2; Q2Qc 2; Q2Qc 2] ∧
  extract_notes_from [Q2Qc 0; Q2Qc 2; Q2Qc 2]
    [{| notes := [note_at 60 0.5 1; note_at 64 2.5 3] |}] []
    = Ok [record_at 1 "C4" 0.5 1 0 2;
          {| measure := 3; note := "E4"; onset := np.Inf; offset := np.Inf;
             measure_start := Q2Qc 4; measure_end := Q2Qc 6 |}].
Proof. repeat split; compute_done. Qed.

(** C10, amended. A note that lands in a measure whose two boundaries are
    equal is not skipped, and the division by the length of the measure
    raises nothing: the note gets a record whose onset and offset are no
    numbers but [inf], [-inf] or [nan], and [extract_notes] returns a table
    that has this record. With the single downbeat 0 the synthetic end is 0
    as well, and every note with an onset of 0 or more is such a note. *)
Theorem zero_length_measure_gives_no_number :
  (∀ downbeats ets pm ts_points inst n b,
     end_times downbeats = Ok ets →
     inst ∈ pm →
     n ∈ notes inst →
     (0 ≤ measure_idx downbeats (start n))%Z →
     downbeats !! Z.to_nat (measure_idx downbeats (start n)) = Some b →
     ets !! Z.to_nat (measure_idx downbeats (start n)) = Some b →
     ∃ r records,
       note_body downbeats ets
         (sig_map_loop ts_points (length downbeats)).2 n = Ok (Some r) ∧
       measure r = (measure_idx downbeats (start n) + 1)%Z ∧
       np.isfinite (onset r) = false ∧
       np.isfinite (offset r) = false ∧
       extract_notes_from downbeats pm ts_points = Ok records ∧
       r ∈ records) ∧
  (∀ pm ts_points inst n,
     inst ∈ pm →
     n ∈ notes inst →
     (Q2Qc 0 ≤ start n)%Qc →
     end_times [Q2Qc 0] = Ok [Q2Qc 0] ∧
     ∃ r records,
       note_body [Q2Qc 0] [Q2Qc 0] (sig_map_loop ts_points 1).2 n
         = Ok (Some r) ∧
       measure r = 1%Z ∧
       np.isfinite (onset r) = false ∧
       np.isfinite (offset r) = false ∧
       extract_notes_from [Q2Qc 0] pm ts_points = Ok records ∧
       r ∈ records).
Proof.
  assert (Hgen : ∀ downbeats ets pm ts_points inst n b,
     end_times downbeats = Ok ets →
     inst ∈ pm →
     n ∈ notes inst →
     (0 ≤ measure_idx downbeats (start n))%Z →
     downbeats !! Z.to_nat (measure_idx downbeats (start n)) = Some b →
     ets !! Z.to_nat (measure_idx downbeats (start n)) = Some b →
     ∃ r records,
       note_body downbeats ets
         (sig_map_loop ts_points (length downbeats)).2 n = Ok (Some r) ∧
       measure r = (measure_idx downbeats (start n) + 1)%Z ∧
       np.isfinite (onset r) = false ∧
       np.isfinite (offset r) = false ∧
       extract_notes_from downbeats pm ts_points = Ok records ∧
       r ∈ records).
  { intros downbeats ets pm ts_points inst n b Hets Hinst Hn Hidx Hstart Hend.
    destruct (end_times_inv _ _ Hets) as (Hlen & _ & _).
    destruct (note_body_cases downbeats ets
      (sig_map_loop ts_points (length downbeats)).2 n Hlen)
      as [[Hneg _]|(rs & re & r & _ & Hrs & Hre & Hbody & Hm & _ & Hon
                    & Hoff & _)]; [lia|].
    assert (rs = b) as -> by congruence.
    assert (re = b) as -> by congruence.
    destruct (extract_notes_from_has_record _ _ _ _ _ _ _ Hets Hinst Hn
      Hbody) as (records & Hok & Hin).
    exists r, records. split; [done|]. split; [done|].
    split; [rewrite Hon; apply normalized_time_zero_length|].
    split; [rewrite Hoff; apply normalized_time_zero_length|done]. }
  split; [exact Hgen|].
  intros pm ts_points inst n Hinst Hn Honset.
  assert (Hets : end_times [Q2Qc 0] = Ok [Q2Qc 0]) by compute_done.
  split; [done|].
  assert (Hidx : measure_idx [Q2Qc 0] (start n) = 0%Z).
  { rewrite measure_idx_after_all; [done|].
    intros d Hd. apply list_elem_of_singleton in Hd as ->. done. }
  destruct (Hgen [Q2Qc 0] [Q2Qc 0] pm ts_points inst n (Q2Qc 0))
    as (r & records & H); try done.
  - by rewrite Hidx.
  - by rewrite Hidx.
  - by rewrite Hidx.
  - rewrite Hidx in H. by exists r, records.
Qed.

Lemma zero_length_measure_gives_no_number_witness :
  (∃ r records,
     note_body [Q2Qc 0; Q2Qc 2; Q2Qc 2] [Q2Qc 2; Q2Qc 2; Q2Qc 2]
       (sig_map_loop [] 3).2 (note_at 64 2.5 3) = Ok (Some r) ∧
     measure r = 3%Z ∧
     np.isfinite (onset r) = false ∧
     np.isfinite (offset r) = false ∧
     extract_notes_from [Q2Qc 0; Q2Qc 2; Q2Qc 2]
       [{| notes := [note_at 60 0.5 1; note_at 64 2.5 3] |}] []
       = Ok records ∧
     r ∈ records) ∧
  (∃ r records,
     note_body [Q2Qc 0] [Q2Qc 0] (sig_map_loop [] 1).2 (note_at 60 0 1)
       = Ok (Some r) ∧
     measure r = 1%Z ∧
     np.isfinite (onset r) = false ∧
     np.isfinite (offset r) = false ∧
     extract_notes_from [Q2Qc 0] [{| notes := [note_at 60 0 1] |}] []
       = Ok records ∧
     r ∈ records).
Proof.
  destruct zero_length_measure_gives_no_number as [Hgen Hsingle]. split.
  - apply (Hgen [Q2Qc 0; Q2Qc 2; Q2Qc 2] [Q2Qc 2; Q2Qc 2; Q2Qc 2]
      [{| notes := [note_at 60 0.5 1; note_at 64 2.5 3] |}] []
      {| notes := [note_at 60 0.5 1; note_at 64 2.5 3] |}
      (note_at 64 2.5 3) (Q2Qc 2)); compute_done.
  - apply (Hsingle [{| notes := [note_at 60 0 1] |}] []
      {| notes := [note_at 60 0 1] |} (note_at 60 0 1)); compute_done.
Defined.

(** ** The spans of consecutive measures *)

(** C7, as stated, fails in its second half: the measure ends and starts
    meet, but the starts need not increase. With the downbeats 0, 2, 4 and
    the change point (2, "-12/4") the second measure has the normalized
    duration -6: it starts at 2 and ends at -4, where the third measure
    starts. *)
Lemma negative_duration_starts_decrease :
  sig_to_duration (Some "-12/4") = Q2Qc (-6) ∧
  extract_notes_from downbeats_024
    [{| notes := [note_at 60 0.5 1; note_at 64 3 3.5] |};
     {| notes := [note_at 67 5 5.5] |}] [(2, "-12/4")]%Z
    = Ok [record_at 3 "G4" (-7) (-8.5) (-4) (-10);
          record_at 2 "E4" (-1) (-2.5) 2 (-4);
          record_at 1 "C4" 0.5 1 0 2] ∧
  measure_end (record_at 2 "E4" (-1) (-2.5) 2 (-4))
    = measure_start (record_at 3 "G4" (-7) (-8.5) (-4) (-10)) ∧
  (measure_start (record_at 3 "G4" (-7) (-8.5) (-4) (-10))
     < measure_start (record_at 2 "E4" (-1) (-2.5) 2 (-4)))%Qc.
Proof. repeat split; compute_done. Qed.

(** C7, amended. In the table of a file, the measure end written for
    measure [m] is the measure start written for measure [m + 1]; and when
    no change point has a negative normalized duration, the measure starts
    do not decrease with the measure index. *)
Theorem consecutive_measure_spans_meet (downbeats : list Qc)
    (pm : list Instrument) (ts_points : list (Z * string))
    (records : list note_record) (r1 r2 : note_record) :
  extract_notes_from downbeats pm ts_points = Ok records →
  r1 ∈ records →
  r2 ∈ records →
  (measure r2 = (measure r1 + 1)%Z → measure_end r1 = measure_start r2) ∧
  ((∀ m s, (m, s) ∈ ts_points → (Q2Qc 0 ≤ sig_to_duration (Some s))%Qc) →
   (measure r1 ≤ measure r2)%Z →
   (measure_start r1 ≤ measure_start r2)%Qc).
Proof.
  intros Hok Hr1 Hr2.
  destruct (extract_notes_from_spans _ _ _ _ _ Hok Hr1) as (Hm1 & Hs1 & He1).
  destruct (extract_notes_from_spans _ _ _ _ _ Hok Hr2) as (_ & Hs2 & _).
  split.
  - intros Hnext. rewrite He1, Hs2, Hnext, range_snoc by done.
    by rewrite fmap_app, list_fmap_singleton, sum_snoc.
  - intros Hpos Hle. rewrite Hs1, Hs2. apply round_mono.
    apply prefix_sum_mono; [|done].
    intros m. by apply sig_map_get_nonneg.
Qed.

Lemma consecutive_measure_spans_meet_witness :
  extract_notes_from downbeats_024 pm_three_measures [(2, "3/4")]%Z
    = Ok [record_at 1 "C4" 0.5 1 0 2; record_at 2 "E4" 2.375 2.75 2 3.5;
          record_at 3 "G4" 4.25 4.625 3.5 5] ∧
  measure_end (record_at 1 "C4" 0.5 1 0 2)
    = measure_start (record_at 2 "E4" 2.375 2.75 2 3.5) ∧
  measure_end (record_at 2 "E4" 2.375 2.75 2 3.5)
    = measure_start (record_at 3 "G4" 4.25 4.625 3.5 5) ∧
  (measure_start (record_at 1 "C4" 0.5 1 0 2)
     ≤ measure_start (record_at 3 "G4" 4.25 4.625 3.5 5))%Qc.
Proof.
  assert (Hok : extract_notes_from downbeats_024 pm_three_measures
      [(2, "3/4")]%Z
    = Ok [record_at 1 "C4" 0.5 1 0 2; record_at 2 "E4" 2.375 2.75 2 3.5;
          record_at 3 "G4" 4.25 4.625 3.5 5]) by compute_done.
  split; [exact Hok|]. split; [|split].
  - apply (consecutive_measure_spans_meet _ _ _ _
      (record_at 1 "C4" 0.5 1 0 2) (record_at 2 "E4" 2.375 2.75 2 3.5) Hok);
      compute_done.
  - apply (consecutive_measure_spans_meet _ _ _ _
      (record_at 2 "E4" 2.375 2.75 2 3.5)
      (record_at 3 "G4" 4.25 4.625 3.5 5) Hok); compute_done.
  - apply (consecutive_measure_spans_meet _ _ _ _
      (record_at 1 "C4" 0.5 1 0 2)
      (record_at 3 "G4" 4.25 4.625 3.5 5) Hok); try compute_done.
    intros m s [= -> ->]%list_elem_of_singleton. compute_done.
Defined.










(** ** Tables without a score *)

(** Rounding leaves a whole number as it is. *)
Lemma round_float_of_int (z : Z) (ndigits : nat) :
  round (float_of_int z) ndigits = float_of_int z.
Proof.
  unfold round, float_of_int. cbn [this Q2Qc]. rewrite inject_Z_Qred.
  destruct ndigits as [|k].
  - unfold round_half_even, inject_Z. cbn [Qnum Qden].
    rewrite Z.div_1_r, Z.mod_1_r. done.
  - apply Q2Qc_eq_iff.
    set (s := (10 ^ Pos.of_nat (S k))%positive).
    unfold round_half_even, inject_Z, Qmult. cbn [Qnum Qden].
    change (1 * 1)%positive with 1%positive.
    rewrite Z.div_1_r, Z.mod_1_r.
    change (2 * 0 ?= 1)%Z with Lt. cbn match.
    unfold Qeq. cbn [Qnum Qden]. lia.
Qed.

Lemma float_of_int_plus (a b : Z) :
  (float_of_int a + float_of_int b)%Qc = float_of_int (a + b).
Proof.
  unfold float_of_int, Qcplus. apply Q2Qc_eq_iff. cbn [this Q2Qc].
  rewrite !inject_Z_Qred. by rewrite inject_Z_plus.
Qed.

(** Without change points every duration read from [sig_map] is 2.0. *)
Lemma sig_map_get_no_points (n : nat) (m : Z) :
  sig_map_get (sig_map_loop [] n).2 m = float_of_int 2.
Proof.
  unfold sig_map_get.
  destruct ((sig_map_loop [] n).2 !! m) as [v|] eqn:Hv; simpl;
    [|compute_done].
  destruct (sig_map_loop_values [] n) as [_ Hvals].
  destruct (Hvals m v Hv) as (s & Hs & ->). simpl in Hs.
  apply list_elem_of_singleton in Hs as ->. compute_done.
Qed.

Lemma sum_of_twos (f : Z → Qc) (k : nat) :
  (∀ m, f m = float_of_int 2) →
  sum (f <$> range 1 (1 + Z.of_nat k)) = float_of_int (2 * Z.of_nat k).
Proof.
  intros Hf. induction k as [|k IH]; [compute_done|].
  replace (1 + Z.of_nat (S k))%Z with ((1 + Z.of_nat k) + 1)%Z by lia.
  rewrite range_snoc by lia.
  rewrite fmap_app, list_fmap_singleton, sum_snoc, IH, Hf.
  rewrite float_of_int_plus. f_equal. lia.
Qed.

(** X11. For a MIDI file without a usable score document, the table [main]
    writes has measures of length 2.0: measure [m] runs from [2 (m - 1)] to
    [2 m], and the [time_signature] column is empty. *)
Theorem table_without_score (xml_file : score_file) (pm : list Instrument)
    (annotation : list ann_line) (rows : list table_row) (row : table_row) :
  main_ts_points xml_file = [] →
  main_table xml_file pm annotation = Ok rows →
  row ∈ rows →
  measure_start row = float_of_int (2 * (measure row - 1)) ∧
  measure_end row = float_of_int (2 * measure row) ∧
  time_signature row = None.
Proof.
  intros Hts. unfold main_table, extract_notes. rewrite Hts.
  destruct (extract_notes_from _ pm []) as [records|e] eqn:Hok; [simpl|done].
  intros [= <-] (r & -> & Hr)%list_elem_of_fmap. cbn [cols time_signature].
  destruct (extract_notes_from_spans _ _ _ _ _ Hok Hr) as (Hm & -> & ->).
  rewrite (range_from_1 (measure r)).
  rewrite (sum_of_twos _ _ (sig_map_get_no_points _)).
  rewrite sig_map_get_no_points, float_of_int_plus, !round_float_of_int.
  repeat split; f_equal; lia.
Qed.

Lemma table_without_score_witness :
  measure_start (record_at 2 "E4" 2.5 3 2 4) = float_of_int (2 * (2 - 1)) ∧
  measure_end (record_at 2 "E4" 2.5 3 2 4) = float_of_int (2 * 2) ∧
  time_signature
    {| cols := record_at 2 "E4" 2.5 3 2 4; time_signature := None |} = None.
Proof.
  apply (table_without_score Unparsable [{| notes := [note_at 64 2.5 3] |}]
    annotation_024
    [{| cols := record_at 2 "E4" 2.5 3 2 4; time_signature := None |}]
    {| cols := record_at 2 "E4" 2.5 3 2 4; time_signature := None |});
    compute_done.
Defined.

(** ** [extract_time_signatures]: the change points it returns *)

Lemma for_each_collect_some {A B} (body : list B → A → result (list B))
    (point : A → option B) (xs : list A) (acc : list B) :
  (∀ s x, x ∈ xs → body s x = Ok (s ++ option_list (point x))) →
  for_each body xs acc = Ok (acc ++ omap point xs).
Proof.
  revert acc. induction xs as [|x xs IH]; intros acc Hbody; simpl.
  - by rewrite app_nil_r.
  - rewrite Hbody by left. simpl. rewrite IH.
    + destruct (point x); simpl; [by rewrite <- app_assoc|].
      by rewrite app_nil_r.
    + intros s y Hy. apply Hbody. by right.
Qed.

(** The dictionary [unique] keeps, for each key, the first pair of the
    list: it is the map of the list. *)
Lemma unique_is_list_to_map (ts_points : list (Z * string))
    (unique : gmap Z string) :
  fold_left (λ unique '(m, sig),
    match unique !! m with
    | None => <[m := sig]> unique
    | Some _ => unique
    end) ts_points unique = unique ∪ list_to_map ts_points.
Proof.
  revert unique. induction ts_points as [|[m sig] ts IH]; intros unique.
  - simpl. by rewrite (right_id_L ∅ (∪)).
  - simpl. rewrite IH. apply map_eq. intros k.
    destruct (unique !! m) as [v|] eqn:Hm.
    + rewrite !lookup_union. destruct (decide (k = m)) as [->|Hne].
      * rewrite Hm, lookup_insert_eq. by destruct (list_to_map ts !! m).
      * by rewrite lookup_insert_ne.
    + rewrite !lookup_union. destruct (decide (k = m)) as [->|Hne].
      * rewrite Hm, !lookup_insert_eq. by destruct (list_to_map ts !! m).
      * by rewrite !lookup_insert_ne.
Qed.

Lemma forallb_false_elem {A} (f : A → bool) (l : list A) :
  forallb f l = false → ∃ x, x ∈ l ∧ f x = false.
Proof.
  induction l as [|x l IH]; simpl; [done|].
  destruct (f x) eqn:Hx; simpl.
  - intros (y & Hy & Hfy)%IH. exists y. split; [by right|done].
  - intros _. exists x. split; [by left|done].
Qed.

(** What [extract_time_signatures] returns when it returns, and when it
    does. *)
Lemma extract_time_signatures_exact (root : list measure_elem) :
  extract_time_signatures root =
  if forallb time_is_complete root then
    Ok (merge_sort item_le
          (map_to_list (list_to_map (omap measure_point root)
                          : gmap Z string)))
  else Raise AttributeError.
Proof.
  unfold extract_time_signatures.
  assert (Hstep : ∀ (s : list (Z * string)) (measure : measure_elem),
    time_is_complete measure = true →
    match attributes_time measure, number measure with
    | Some time_elem, Some num =>
        beats ← text (beats_elem time_elem);
        beat_type ← text (beat_type_elem time_elem);
        try_except
          (m ← int_of_text (Some num);
           b ← int_of_text beats;
           bt ← int_of_text beat_type;
           Ok (s ++ [(m, str_of_int b +:+ "/" +:+ str_of_int bt)]))
          [ValueError; TypeError]
          (Ok s)
    | _, _ => Ok s
    end = Ok (s ++ option_list (measure_point measure))).
  { intros s measure. unfold time_is_complete, measure_point.
    destruct (attributes_time measure) as [[beats beat_type]|];
      [|by rewrite app_nil_r].
    destruct (number measure) as [num|]; [|by rewrite app_nil_r].
    cbn [beats_elem beat_type_elem].
    intros [[b Hb]%bool_decide_eq_true [u Hu]%bool_decide_eq_true]%andb_prop.
    subst beats beat_type. cbn [text mbind result_bind mjoin].
    unfold int_of_text.
    destruct (int_of_string num) as [m|]; simpl;
      [|by rewrite app_nil_r].
    destruct b as [b|]; simpl; [|by rewrite app_nil_r].
    destruct (int_of_string b) as [zb|]; simpl; [|by rewrite app_nil_r].
    destruct u as [u|]; simpl; [|by rewrite app_nil_r].
    destruct (int_of_string u) as [zu|]; simpl; [done|by rewrite app_nil_r]. }
  destruct (forallb time_is_complete root) eqn:Hall.
  - rewrite (for_each_collect_some _ measure_point).
    + simpl. rewrite unique_is_list_to_map. by rewrite (left_id_L ∅ (∪)).
    + intros s measure Hin. apply Hstep.
      rewrite forallb_forall in Hall. apply Hall. by apply list_elem_of_In.
  - assert (Hbad : ∃ measure, measure ∈ root ∧ time_is_complete measure = false).
    { by apply forallb_false_elem. }
    destruct Hbad as (bad & Hin & Hbad).
    erewrite (for_each_raises _ AttributeError root bad); [done|done| |].
    + intros s measure e _.
      destruct (time_is_complete measure) eqn:Hc.
      * by rewrite Hstep.
      * revert Hc. unfold time_is_complete.
        destruct (attributes_time measure) as [[beats beat_type]|]; [|done].
        destruct (number measure) as [num|]; [|done].
        cbn [beats_elem beat_type_elem].
        destruct beats as [b|]; simpl; [|congruence].
        destruct beat_type as [u|]; simpl; [done|congruence].
    + intros s. revert Hbad. unfold time_is_complete.
      destruct (attributes_time bad) as [[beats beat_type]|]; [|done].
      destruct (number bad) as [num|]; [|done].
      cbn [beats_elem beat_type_elem].
      destruct beats as [b|]; simpl; [|done].
      destruct beat_type as [u|]; simpl; done.
Qed.

#[local] Instance item_le_total : Total item_le.
Proof. intros p q. unfold item_le. lia. Qed.

#[local] Instance item_le_trans : Transitive item_le.
Proof. intros p q r. unfold item_le. lia. Qed.

Lemma StronglySorted_keys_lt (l : list (Z * string)) :
  StronglySorted item_le l → NoDup l.*1 → StronglySorted Z.lt l.*1.
Proof.
  induction 1 as [|p l Hl IH Hp]; simpl; intros Hnd; [constructor|].
  apply NoDup_cons in Hnd as [Hnotin Hnd]. constructor; [by apply IH|].
  apply Forall_fmap, Forall_forall. intros q Hq. simpl.
  rewrite Forall_forall in Hp. specialize (Hp q Hq). unfold item_le in Hp.
  assert (p.1 ≠ q.1) by (intros Heq; apply Hnotin; rewrite Heq;
                         by apply list_elem_of_fmap_2).
  lia.
Qed.

(** X12. The change points [extract_time_signatures] returns are in
    strictly ascending order of their measure numbers: no measure number
    comes twice. *)
Theorem change_points_strictly_ascending (root : list measure_elem)
    (out : list (Z * string)) :
  extract_time_signatures root = Ok out →
  StronglySorted Z.lt out.*1.
Proof.
  rewrite extract_time_signatures_exact.
  destruct (forallb time_is_complete root); [|done]. intros [= <-].
  apply StronglySorted_keys_lt.
  - apply (StronglySorted_merge_sort item_le).
  - rewrite merge_sort_Permutation. apply NoDup_fst_map_to_list.
Qed.

Lemma change_points_strictly_ascending_witness :
  StronglySorted Z.lt [(1, "4/4"); (3, "3/4")]%Z.*1.
Proof.
  apply (change_points_strictly_ascending
    [measure_3_waltz; measure_1_common_time; measure_2_bad_beats;
     measure_3_waltz]).
  compute_done.
Defined.

(** X13. [extract_time_signatures] returns when every [time] element it
    looks at, that of a measure with a [number], has a [beats] and a
    [beat-type] child; one such element without one of them makes it raise
    [AttributeError], whatever the other measures hold. *)
Theorem extract_time_signatures_raises_iff (root : list measure_elem) :
  ((∀ measure time_elem,
      measure ∈ root →
      attributes_time measure = Some time_elem →
      is_Some (number measure) →
      is_Some (beats_elem time_elem) ∧ is_Some (beat_type_elem time_elem)) →
   ∃ out, extract_time_signatures root = Ok out) ∧
  ((∃ measure time_elem,
      measure ∈ root ∧
      attributes_time measure = Some time_elem ∧
      is_Some (number measure) ∧
      (beats_elem time_elem = None ∨ beat_type_elem time_elem = None)) →
   extract_time_signatures root = Raise AttributeError).
Proof.
  rewrite extract_time_signatures_exact. split.
  - intros Hall. rewrite (proj2 (forallb_forall _ _)); [by eexists|].
    intros measure Hin%list_elem_of_In. unfold time_is_complete.
    destruct (attributes_time measure) as [t|] eqn:Ht; [|done].
    destruct (number measure) as [num|] eqn:Hnum; [|done].
    destruct (Hall measure t Hin Ht) as [Hb Hu]; [by rewrite Hnum|].
    by rewrite !bool_decide_eq_true_2.
  - intros (measure & t & Hin & Ht & [num Hnum] & Hmissing).
    destruct (forallb time_is_complete root) eqn:Hall; [|done].
    rewrite forallb_forall in Hall.
    specialize (Hall measure (proj1 (list_elem_of_In _ _) Hin)).
    revert Hall. unfold time_is_complete. rewrite Ht, Hnum.
    intros [Hb%bool_decide_eq_true Hu%bool_decide_eq_true]%andb_prop.
    exfalso. destruct Hmissing as [H|H]; rewrite H in *;
      by eapply is_Some_None.
Qed.

Lemma extract_time_signatures_raises_iff_witness :
  (∃ out, extract_time_signatures
            [measure_1_common_time; measure_2_bad_beats] = Ok out) ∧
  extract_time_signatures
    [measure_1_common_time; measure_2_no_beats; measure_3_waltz]
    = Raise AttributeError.
Proof.
  split.
  - apply (proj1 (extract_time_signatures_raises_iff
      [measure_1_common_time; measure_2_bad_beats])).
    intros measure t Hin Ht _.
    repeat (apply elem_of_cons in Hin as [->|Hin]);
      [..|by apply elem_of_nil in Hin]; injection Ht as <-;
      split; by eexists.
  - apply (proj2 (extract_time_signatures_raises_iff
      [measure_1_common_time; measure_2_no_beats; measure_3_waltz])).
    exists measure_2_no_beats, {| beats_elem := None;
                                  beat_type_elem := Some (Some "4") |}.
    split; [right; left|]. split; [done|]. split; [by eexists|by left].
Defined.

Lemma list_to_map_first (l : list (Z * string)) (m : Z) (sig : string) :
  (list_to_map l : gmap Z string) !! m = Some sig ↔
  ∃ before after, l = before ++ (m, sig) :: after ∧ m ∉ before.*1.
Proof.
  induction l as [|[k v] l IH]; simpl.
  - rewrite lookup_empty. split; [done|].
    intros (before & after & Heq & _). by destruct before.
  - destruct (decide (k = m)) as [->|Hne].
    + rewrite lookup_insert_eq. split.
      * intros [= ->]. exists [], l. split; [done|]. apply not_elem_of_nil.
      * intros (before & after & Heq & Hnotin).
        destruct before as [|[k' v'] before]; simpl in *.
        -- by injection Heq as -> ->.
        -- injection Heq as -> -> ->. exfalso. apply Hnotin. by left.
    + rewrite lookup_insert_ne by done. rewrite IH. split.
      * intros (before & after & -> & Hnotin).
        exists ((k, v) :: before), after. split; [done|]. simpl.
        by apply not_elem_of_cons.
      * intros (before & after & Heq & Hnotin).
        destruct before as [|[k' v'] before]; simpl in *.
        -- by injection Heq as -> ->.
        -- injection Heq as -> -> ->. exists before, after. split; [done|].
           by apply not_elem_of_cons in Hnotin as [_ ?].
Qed.

(** X14. When [extract_time_signatures] returns, a pair is among its change
    points exactly when it is, in document order, the first pair of its
    measure number among those of the measures that read as a change point
    (number, beats and beat type all integers): a later declaration for the
    same number is ignored, a measure that does not read is left out. *)
Theorem change_points_are_first_declarations (root : list measure_elem)
    (out : list (Z * string)) (m : Z) (sig : string) :
  extract_time_signatures root = Ok out →
  ((m, sig) ∈ out ↔
   ∃ before after,
     omap measure_point root = before ++ (m, sig) :: after ∧
     m ∉ before.*1).
Proof.
  rewrite extract_time_signatures_exact.
  destruct (forallb time_is_complete root); [|done]. intros [= <-].
  rewrite merge_sort_Permutation, elem_of_map_to_list.
  apply list_to_map_first.
Qed.

Lemma change_points_are_first_declarations_witness :
  (1%Z, "4/4") ∈ [(1, "4/4"); (3, "3/4")]%Z ↔
  ∃ before after,
    omap measure_point
      [measure_3_waltz; measure_1_common_time; measure_2_bad_beats;
       {| number := Some "1"; attributes_time := time_of "6" "8" |}]
    = before ++ (1%Z, "4/4") :: after ∧
    1%Z ∉ before.*1.
Proof.
  apply (change_points_are_first_declarations
    [measure_3_waltz; measure_1_common_time; measure_2_bad_beats;
     {| number := Some "1"; attributes_time := time_of "6" "8" |}]).
  compute_done.
Defined.

(** ** Signature strings, from the score to the durations *)

(** The duration of a rendered signature. *)
Lemma sig_to_duration_rendered (b u : Z) :
  sig_to_duration (Some (str_of_int b +:+ "/" +:+ str_of_int u)) =
  if decide (u = 0%Z) then Q2Qc 2
  else (Q2Qc (60 / 120) * float_of_int b * (Q2Qc 4 / float_of_int u))%Qc.
Proof.
  unfold sig_to_duration.
  change ("/" +:+ str_of_int u) with (String "/" (str_of_int u)).
  rewrite split_join by apply str_of_int_no_slash.
  rewrite split_no_sep by apply str_of_int_no_slash. simpl.
  rewrite !int_of_string_str_of_int. simpl. unfold truediv.
  destruct (decide (u = 0%Z)) as [->|Hu].
  - done.
  - destruct (decide (float_of_int u = Q2Qc 0)) as [Hz|_]; [|done].
    by apply float_of_int_0 in Hz.
Qed.

(** X15. Every signature string [extract_time_signatures] returns is
    rendered from two integers, and [sig_to_duration] reads it back as
    them: its duration is (60/120) * beats * (4 / beat type), or 2.0 when
    the beat type is 0. *)
Theorem change_point_durations (root : list measure_elem)
    (out : list (Z * string)) (m : Z) (sig : string) :
  extract_time_signatures root = Ok out →
  (m, sig) ∈ out →
  ∃ b u : Z,
    sig = str_of_int b +:+ "/" +:+ str_of_int u ∧
    sig_to_duration (Some sig) =
      if decide (u = 0%Z) then Q2Qc 2
      else (Q2Qc (60 / 120) * float_of_int b * (Q2Qc 4 / float_of_int u))%Qc.
Proof.
  rewrite extract_time_signatures_exact.
  destruct (forallb time_is_complete root); [|done]. intros [= <-].
  rewrite merge_sort_Permutation, elem_of_map_to_list.
  intros (before & after & Heq & _)%list_to_map_first.
  assert (Hin : (m, sig) ∈ omap measure_point root).
  { rewrite Heq. apply elem_of_app. right. by left. }
  apply list_elem_of_omap in Hin as (measure & _ & Hpoint).
  revert Hpoint. unfold measure_point.
  destruct (attributes_time measure) as [t|]; [|done].
  destruct (number measure) as [num|]; [|done].
  destruct (int_of_string num) as [m'|]; [simpl|done].
  destruct (mjoin (beats_elem t) ≫= int_of_string) as [b|]; [simpl|done].
  destruct (mjoin (beat_type_elem t) ≫= int_of_string) as [u|];
    [simpl|done].
  intros [= <- <-]. exists b, u. split; [done|].
  apply sig_to_duration_rendered.
Qed.

Lemma change_point_durations_witness :
  ∃ b u : Z,
    "3/4" = str_of_int b +:+ "/" +:+ str_of_int u ∧
    sig_to_duration (Some "3/4") =
      if decide (u = 0%Z) then Q2Qc 2
      else (Q2Qc (60 / 120) * float_of_int b * (Q2Qc 4 / float_of_int u))%Qc.
Proof.
  apply (change_point_durations [measure_1_common_time; measure_3_waltz]
    [(1, "4/4"); (3, "3/4")]%Z 3%Z "3/4"); compute_done.
Defined.

(** X16. [sig_to_duration] gives anything but 2.0 only for a string that
    splits at "/" into exactly two parts, both reading as integers, the
    second not 0: every other string falls back to 2.0. *)
Theorem sig_to_duration_fallback (ts : string) :
  sig_to_duration (Some ts) ≠ Q2Qc 2 →
  ∃ s1 s2 beats beat_type,
    split "/" ts = [s1; s2] ∧
    int_of_string s1 = Some beats ∧
    int_of_string s2 = Some beat_type ∧
    beat_type ≠ 0%Z.
Proof.
  unfold sig_to_duration. intros Hne.
  destruct (split "/" ts) as [|s1 [|s2 [|s3 rest]]] eqn:Hsplit;
    try (exfalso; by apply Hne).
  change (int_of_text ∘ Some <$> [s1; s2])
    with [int_of_text (Some s1); int_of_text (Some s2)] in Hne.
  unfold int_of_text in Hne.
  destruct (int_of_string s1) as [b|] eqn:H1; [|exfalso; by apply Hne].
  destruct (int_of_string s2) as [u|] eqn:H2; [|exfalso; by apply Hne].
  exists s1, s2, b, u. split; [done|]. split; [done|]. split; [done|].
  intros ->. by apply Hne.
Qed.

Lemma sig_to_duration_fallback_witness :
  ∃ s1 s2 beats beat_type,
    split "/" "6/8" = [s1; s2] ∧
    int_of_string s1 = Some beats ∧
    int_of_string s2 = Some beat_type ∧
    beat_type ≠ 0%Z.
Proof. apply (sig_to_duration_fallback "6/8"). compute_done. Defined.

(** ** [assign_time_signature] against the durations *)

Lemma find_app {A} (f : A → bool) (l1 l2 : list A) :
  find f (l1 ++ l2) = match find f l1 with
                      | Some x => Some x
                      | None => find f l2
                      end.
Proof. induction l1 as [|x l1 IH]; simpl; [done|]. by destruct (f x). Qed.

(** On change points in ascending order, the scan from the end that
    [extract_notes] makes and the scan from the start that [get_sig] makes
    stop at the same change point. *)
Lemma effective_sig_get_sig (ts_points : list (Z * string)) (m : Z)
    (sig : string) :
  StronglySorted item_le ts_points →
  effective_sig ts_points m sig = get_sig_loop ts_points m sig.
Proof.
  intros Hsorted. revert sig.
  induction Hsorted as [|[m0 s] ts Hts IH Hall]; intros sig; [done|].
  unfold effective_sig in *. rewrite reverse_cons, find_app. simpl.
  case_bool_decide as Hm.
  - specialize (IH s). destruct (find _ (reverse ts)) as [[? ?]|]; done.
  - rewrite find_all_false; [done|].
    intros [m1 s1] Hin. rewrite elem_of_reverse in Hin.
    rewrite Forall_forall in Hall. specialize (Hall _ Hin).
    unfold item_le in Hall. simpl in *. apply bool_decide_eq_false_2. lia.
Qed.

(** X17. For change points in ascending order of measure, as
    [extract_time_signatures] returns them, the two resolutions of a
    measure's signature agree from the first change point on: the duration
    [extract_notes] stores for measure [k] is that of the signature
    [assign_time_signature] shows for it. Before the first change point they
    part: the duration is that of 4/4, the signature shown is the first
    one of the score. *)
Theorem shown_signature_and_duration (m0 : Z) (s0 : string)
    (rest : list (Z * string)) (n k : nat) :
  let ts_points := (m0, s0) :: rest in
  StronglySorted item_le ts_points →
  1 ≤ k ≤ n →
  ((m0 ≤ Z.of_nat k)%Z →
   (sig_map_loop ts_points n).2 !! Z.of_nat k =
     Some (sig_to_duration (Some (get_sig_loop ts_points (Z.of_nat k) s0)))) ∧
  ((Z.of_nat k < m0)%Z →
   (sig_map_loop ts_points n).2 !! Z.of_nat k = Some (Q2Qc 2) ∧
   get_sig_loop ts_points (Z.of_nat k) s0 = s0).
Proof.
  intros ts_points Hsorted Hk.
  rewrite sig_map_lookup by done.
  destruct k as [|k]; [lia|]. rewrite sig_map_loop_S. cbn zeta. cbn [fst].
  replace (Z.of_nat k + 1)%Z with (Z.of_nat (S k)) by lia.
  rewrite effective_sig_get_sig by done. split.
  - intros Hm0. do 2 f_equal. subst ts_points. simpl.
    by rewrite !bool_decide_eq_true_2.
  - intros Hm0. subst ts_points. simpl.
    rewrite !bool_decide_eq_false_2 by lia. split; [|done].
    rewrite (last_sig_default _ (Z.of_nat k)); [compute_done| |lia].
    intros m s Hin. apply elem_of_cons in Hin as [[= -> ->]|Hin]; [lia|].
    apply StronglySorted_inv in Hsorted as [_ Hall].
    rewrite Forall_forall in Hall. specialize (Hall _ Hin).
    unfold item_le in Hall. simpl in Hall. lia.
Qed.

Lemma shown_signature_and_duration_witness :
  (sig_map_loop [(2, "3/4"); (4, "6/8")]%Z 5).2 !! 3%Z =
    Some (sig_to_duration
            (Some (get_sig_loop [(2, "3/4"); (4, "6/8")]%Z 3 "3/4"))) ∧
  (sig_map_loop [(2, "3/4"); (4, "6/8")]%Z 5).2 !! 1%Z = Some (Q2Qc 2) ∧
  get_sig_loop [(2, "3/4"); (4, "6/8")]%Z 1 "3/4" = "3/4".
Proof.
  assert (Hsorted : StronglySorted item_le [(2, "3/4"); (4, "6/8")]%Z).
  { repeat constructor. unfold item_le. simpl. lia. }
  split.
  - apply (shown_signature_and_duration 2 "3/4" [(4, "6/8")]%Z 5 3 Hsorted);
      lia.
  - apply (shown_signature_and_duration 2 "3/4" [(4, "6/8")]%Z 5 1 Hsorted);
      lia.
Defined.

(** ** The split: every piece in one partition *)

Lemma slice_index_nonneg {A} (a : list A) (i : Z) :
  (0 ≤ i)%Z → slice_index a i = Nat.min (length a) (Z.to_nat i).
Proof.
  intros Hi. unfold slice_index.
  destruct (Z.ltb_spec i 0); [lia|]. lia.
Qed.

(** [a[:i] + a[i:j] + a[j:]] is [a] for [0 <= i <= j]. *)
Lemma slices_cover {A} (a : list A) (i j : Z) :
  (0 ≤ i ≤ j)%Z →
  slice a None (Some i) ++ slice a (Some i) (Some j) ++ slice a (Some j) None
  = a.
Proof.
  intros Hij. unfold slice. simpl.
  rewrite !slice_index_nonneg by lia.
  set (x := Nat.min (length a) (Z.to_nat i)).
  set (y := Nat.min (length a) (Z.to_nat j)).
  assert (Hxy : x ≤ y ≤ length a) by lia.
  rewrite Nat.sub_0_r, drop_0.
  rewrite (take_ge (drop y a)) by (rewrite length_drop; lia).
  rewrite <- (take_drop x a) at 4. f_equal.
  rewrite <- (take_drop (y - x) (drop x a)) at 2. f_equal.
  rewrite drop_drop. f_equal. lia.
Qed.

Lemma int_of_float_nonneg (x : Qc) : (Q2Qc 0 ≤ x)%Qc → (0 ≤ int_of_float x)%Z.
Proof.
  unfold int_of_float, Qcle, Qle. simpl. intros Hx.
  apply Z.quot_pos; lia.
Qed.

Lemma float_of_int_nonneg (z : Z) : (0 ≤ z)%Z → (Q2Qc 0 ≤ float_of_int z)%Qc.
Proof.
  intros Hz. unfold float_of_int, Qcle. cbn [this Q2Qc].
  rewrite !Qred_correct. change 0%Q with (inject_Z 0).
  by rewrite <- Zle_Qle.
Qed.

(** With proportions that are not negative, the pieces left after the
    forced ones are taken out are dealt out completely and in their
    shuffled order: the train pieces, then the test pieces behind the
    forced ones, then the validation pieces. *)
Lemma split_pieces_cover (normpath : string → string)
    (shuffle : list string → list string) (train_split test_split : Qc)
    (force keys : list string) :
  (Q2Qc 0 ≤ train_split)%Qc →
  (Q2Qc 0 ≤ test_split)%Qc →
  let pieces :=
    split_pieces normpath shuffle train_split test_split force keys in
  test_pieces pieces = force ++ drop (length force) (test_pieces pieces) ∧
  train_pieces pieces ++ drop (length force) (test_pieces pieces)
    ++ val_pieces pieces =
  filter (λ p, normpath p ∉ (list_to_set (normpath <$> force) : gset string))
    (shuffle keys).
Proof.
  intros Htrain Htest pieces. subst pieces. unfold split_pieces.
  cbn [train_pieces test_pieces val_pieces].
  rewrite drop_app_length. split; [done|].
  apply slices_cover.
  set (n := Z.of_nat (length (filter _ (shuffle keys)))).
  assert (Hn : (Q2Qc 0 ≤ float_of_int n)%Qc)
    by (apply float_of_int_nonneg; lia).
  pose proof (int_of_float_nonneg _
    (Qcmult_nonneg_nonneg _ _ Hn Htrain)).
  pose proof (int_of_float_nonneg _
    (Qcmult_nonneg_nonneg _ _ Hn Htest)).
  lia.
Qed.

(** X18. With proportions that are not negative, the pieces that get a
    partition are the forced ones and the shuffled keys whose normalized
    path is not that of a forced piece. A key that is spelled unlike a
    forced piece but normalizes to one is in no partition. *)
Theorem pieces_with_a_partition (normpath : string → string)
    (shuffle : list string → list string) (train_split test_split : Qc)
    (force keys : list string) (p : string) :
  (Q2Qc 0 ≤ train_split)%Qc →
  (Q2Qc 0 ≤ test_split)%Qc →
  let pieces :=
    split_pieces normpath shuffle train_split test_split force keys in
  (p ∈ train_pieces pieces ∨ p ∈ test_pieces pieces ∨ p ∈ val_pieces pieces) ↔
  (p ∈ force ∨
   (p ∈ shuffle keys ∧ ¬ ∃ q, q ∈ force ∧ normpath q = normpath p)).
Proof.
  intros Htrain Htest pieces.
  destruct (split_pieces_cover normpath shuffle train_split test_split
    force keys Htrain Htest) as [Htest_eq Hcover].
  fold pieces in Htest_eq, Hcover.
  assert (Hrem : ∀ q,
    q ∈ train_pieces pieces ++ drop (length force) (test_pieces pieces)
        ++ val_pieces pieces ↔
    q ∈ shuffle keys ∧ ¬ ∃ q', q' ∈ force ∧ normpath q' = normpath q).
  { intros q. rewrite Hcover, list_elem_of_filter, elem_of_list_to_set.
    rewrite list_elem_of_fmap. split.
    - intros [Hn Hq]. split; [done|]. intros (q' & Hq' & Heq).
      apply Hn. by exists q'.
    - intros [Hq Hn]. split; [|done]. intros (q' & Heq & Hq').
      apply Hn. by exists q'. }
  rewrite <- Hrem, Htest_eq, !elem_of_app.
  rewrite <- Htest_eq. tauto.
Qed.

Lemma pieces_with_a_partition_witness :
  let pieces :=
    split_pieces (λ p, if String.eqb p "./Ravel/Ondine" then "Ravel/Ondine"
                       else p)
      reverse TRAIN_SPLIT TEST_SPLIT ["Ravel/Ondine"]
      ["./Ravel/Ondine"; "Bach/Fugue/bwv_846"] in
  ("./Ravel/Ondine" ∈ train_pieces pieces
   ∨ "./Ravel/Ondine" ∈ test_pieces pieces
   ∨ "./Ravel/Ondine" ∈ val_pieces pieces) ↔
  ("./Ravel/Ondine" ∈ ["Ravel/Ondine"] ∨
   ("./Ravel/Ondine" ∈ reverse ["./Ravel/Ondine"; "Bach/Fugue/bwv_846"] ∧
    ¬ ∃ q, q ∈ ["Ravel/Ondine"] ∧
           (if String.eqb q "./Ravel/Ondine" then "Ravel/Ondine" else q)
           = "Ravel/Ondine")).
Proof.
  apply (pieces_with_a_partition
    (λ p, if String.eqb p "./Ravel/Ondine" then "Ravel/Ondine" else p)
    reverse TRAIN_SPLIT TEST_SPLIT ["Ravel/Ondine"]
    ["./Ravel/Ondine"; "Bach/Fugue/bwv_846"] "./Ravel/Ondine");
    compute_done.
Defined.

(** X19. When the shuffled keys hold no piece twice and the proportions are
    not negative, no piece is in two partitions. *)
Theorem partitions_are_disjoint (normpath : string → string)
    (shuffle : list string → list string) (train_split test_split : Qc)
    (force keys : list string) (p : string) :
  NoDup (shuffle keys) →
  (Q2Qc 0 ≤ train_split)%Qc →
  (Q2Qc 0 ≤ test_split)%Qc →
  let pieces :=
    split_pieces normpath shuffle train_split test_split force keys in
  ¬ (p ∈ train_pieces pieces ∧ p ∈ test_pieces pieces) ∧
  ¬ (p ∈ train_pieces pieces ∧ p ∈ val_pieces pieces) ∧
  ¬ (p ∈ test_pieces pieces ∧ p ∈ val_pieces pieces).
Proof.
  intros Hnodup Htrain Htest pieces.
  pose proof (split_pieces_cover normpath shuffle train_split test_split
    force keys Htrain Htest) as Hcover.
  fold pieces in Hcover.
  destruct Hcover as [Htest_eq Hcover].
  assert (Hnd : NoDup (train_pieces pieces
    ++ drop (length force) (test_pieces pieces) ++ val_pieces pieces)).
  { rewrite Hcover. by apply NoDup_filter. }
  apply NoDup_app in Hnd as (_ & Htrain_other & Hnd).
  apply NoDup_app in Hnd as (_ & Hmid_val & _).
  assert (Hforce : ∀ q, q ∈ force →
    q ∉ train_pieces pieces ++ drop (length force) (test_pieces pieces)
        ++ val_pieces pieces).
  { intros q Hq. rewrite Hcover. by apply remaining_not_forced. }
  split; [|split].
  - intros [Htr Hte]. rewrite Htest_eq in Hte.
    apply elem_of_app in Hte as [Hf|Hmid].
    + apply (Hforce p Hf). apply elem_of_app. by left.
    + apply (Htrain_other p Htr). apply elem_of_app. by left.
  - intros [Htr Hva]. apply (Htrain_other p Htr). apply elem_of_app.
    by right.
  - intros [Hte Hva]. rewrite Htest_eq in Hte.
    apply elem_of_app in Hte as [Hf|Hmid].
    + apply (Hforce p Hf). rewrite !elem_of_app. by right; right.
    + by apply (Hmid_val p Hmid).
Qed.

Lemma partitions_are_disjoint_witness :
  let pieces :=
    split_pieces id reverse TRAIN_SPLIT TEST_SPLIT force_test_pieces
      ["Chopin/Barcarolle"; "Bach/Fugue/bwv_846"; "Ravel/Ondine";
       "Liszt/Ballade_2"; "Debussy/Pour_le_Piano/1"] in
  ¬ ("Ravel/Ondine" ∈ train_pieces pieces
     ∧ "Ravel/Ondine" ∈ test_pieces pieces) ∧
  ¬ ("Ravel/Ondine" ∈ train_pieces pieces
     ∧ "Ravel/Ondine" ∈ val_pieces pieces) ∧
  ¬ ("Ravel/Ondine" ∈ test_pieces pieces
     ∧ "Ravel/Ondine" ∈ val_pieces pieces).
Proof.
  apply (partitions_are_disjoint id reverse TRAIN_SPLIT TEST_SPLIT
    force_test_pieces
    ["Chopin/Barcarolle"; "Bach/Fugue/bwv_846"; "Ravel/Ondine";
     "Liszt/Ballade_2"; "Debussy/Pour_le_Piano/1"] "Ravel/Ondine");
    compute_done.
Defined.

(** ** [merge_perf_pure]: the rows and what is in them *)

Lemma StronglySorted_le_lt (l : list Z) :
  StronglySorted Z.le l → NoDup l → StronglySorted Z.lt l.
Proof.
  induction 1 as [|x l Hl IH Hx]; intros Hnd; [constructor|].
  apply NoDup_cons in Hnd as [Hnotin Hnd]. constructor; [by apply IH|].
  apply Forall_forall. intros y Hy. rewrite Forall_forall in Hx.
  specialize (Hx y Hy). assert (x ≠ y) by (by intros ->). lia.
Qed.

(** X20. The rows [merge_perf_pure] returns come in strictly ascending order
    of measure, each names the performance table it was made from, and none
    has an empty list: a measure is merged only when both tables have a
    note in it. *)
Theorem merged_rows_ascending_nonempty (perf_csv : string)
    (perf_df pure_df : list table_row) :
  ∃ records,
    merge_perf_pure perf_csv perf_df (Some pure_df) = Ok records ∧
    StronglySorted Z.lt (rec_measure <$> records) ∧
    Forall (λ rec,
      rec_perf_csv rec = perf_csv ∧ rec_x rec ≠ [] ∧ rec_y rec ≠ [])
      records.
Proof.
  destruct (merge_perf_pure_rows perf_csv perf_df pure_df)
    as (records & Hok & Hmeasures & Hrows).
  exists records. split; [done|]. split.
  - rewrite Hmeasures. apply StronglySorted_le_lt.
    + apply (StronglySorted_merge_sort Z.le).
    + apply NoDup_common_measures.
  - apply Forall_forall. intros rec Hrec.
    rewrite Forall_forall in Hrows.
    destruct (Hrows rec Hrec) as (first & rest & Hsec & Hshape).
    assert (Hm : rec_measure rec ∈ common_measures perf_df pure_df).
    { rewrite <- Hmeasures. by apply list_elem_of_fmap_2. }
    apply elem_of_common_measures in Hm as [_ Hpure].
    destruct (section_of_nonempty _ _ Hpure) as (first' & rest' & Hsec').
    rewrite Hshape. unfold merged_in_frame. cbn [rec_perf_csv rec_x rec_y].
    rewrite Hsec, Hsec'. done.
Qed.






(** ** The file lists and the sizes of the partitions *)

(** X22. When the shuffle keeps the keys of [piece_to_files], a file is in
    one of the three file lists exactly when it is a file of a piece that is
    forced or whose normalized path is not that of a forced piece. A forced
    piece that [piece_to_files] does not have adds nothing and raises
    nothing. *)
Theorem listed_files (normpath : string → string)
    (shuffle : list string → list string) (train_split test_split : Qc)
    (force keys : list string) (piece_to_files : gmap string (list string))
    (f : string) :
  (Q2Qc 0 ≤ train_split)%Qc →
  (Q2Qc 0 ≤ test_split)%Qc →
  (∀ p, p ∈ shuffle keys ↔ is_Some (piece_to_files !! p)) →
  let pieces :=
    split_pieces normpath shuffle train_split test_split force keys in
  (f ∈ files_of piece_to_files (train_pieces pieces)
   ∨ f ∈ files_of piece_to_files (test_pieces pieces)
   ∨ f ∈ files_of piece_to_files (val_pieces pieces)) ↔
  ∃ p files,
    piece_to_files !! p = Some files ∧ f ∈ files ∧
    (p ∈ force ∨ ¬ ∃ q, q ∈ force ∧ normpath q = normpath p).
Proof.
  intros Htrain Htest Hkeys pieces.
  destruct (split_pieces_cover normpath shuffle train_split test_split
    force keys Htrain Htest) as [Htest_eq Hcover].
  fold pieces in Htest_eq, Hcover.
  assert (Hrem : ∀ q,
    q ∈ train_pieces pieces ++ drop (length force) (test_pieces pieces)
        ++ val_pieces pieces ↔
    q ∈ shuffle keys ∧ ¬ ∃ q', q' ∈ force ∧ normpath q' = normpath q).
  { intros q. rewrite Hcover, list_elem_of_filter, elem_of_list_to_set.
    rewrite list_elem_of_fmap. split.
    - intros [Hn Hq]. split; [done|]. intros (q' & Hq' & Heq).
      apply Hn. by exists q'.
    - intros [Hq Hn]. split; [|done]. intros (q' & Heq & Hq').
      apply Hn. by exists q'. }
  assert (Hfiles : ∀ l,
    f ∈ files_of piece_to_files l ↔
    ∃ p files, p ∈ l ∧ piece_to_files !! p = Some files ∧ f ∈ files).
  { intros l. unfold files_of. rewrite list_elem_of_bind. split.
    - intros (p & Hf & Hp). destruct (piece_to_files !! p) as [files|] eqn:E.
      + by exists p, files.
      + by apply elem_of_nil in Hf.
    - intros (p & files & Hp & E & Hf). exists p. by rewrite E. }
  rewrite !Hfiles. split.
  - intros Hin.
    assert (∃ p files, (p ∈ force ∨ p ∈ train_pieces pieces
        ++ drop (length force) (test_pieces pieces) ++ val_pieces pieces) ∧
      piece_to_files !! p = Some files ∧ f ∈ files)
      as (p & files & Hp & E & Hf).
    { destruct Hin as [(p & files & Hp & H)|[(p & files & Hp & H)
        |(p & files & Hp & H)]]; exists p, files; (split; [|done]).
      - right. apply elem_of_app. by left.
      - rewrite Htest_eq in Hp. apply elem_of_app in Hp as [Hp|Hp].
        + by left.
        + right. rewrite !elem_of_app. by right; left.
      - right. rewrite !elem_of_app. by right; right. }
    exists p, files. split; [done|]. split; [done|].
    destruct Hp as [Hp|Hp]; [by left|]. right. by apply Hrem.
  - intros (p & files & E & Hf & Hp).
    assert (p ∈ force ∨ p ∈ train_pieces pieces
        ++ drop (length force) (test_pieces pieces) ++ val_pieces pieces)
      as Hin.
    { destruct Hp as [Hp|Hp]; [by left|]. right. apply Hrem.
      split; [|done]. apply Hkeys. by rewrite E. }
    destruct Hin as [Hin|Hin].
    + right; left. exists p, files. split; [|done].
      rewrite Htest_eq. apply elem_of_app. by left.
    + apply elem_of_app in Hin as [Hin|Hin];
        [left; by exists p, files|].
      apply elem_of_app in Hin as [Hin|Hin].
      * right; left. exists p, files. split; [|done].
        rewrite Htest_eq. apply elem_of_app. by right.
      * right; right. by exists p, files.
Qed.

Lemma listed_files_witness :
  let piece_to_files : gmap string (list string) :=
    {[ "Ravel/Ondine" := ["Ravel/Ondine/A01.csv"];
       "Bach/Fugue/bwv_846" := ["Bach/Fugue/bwv_846/B02.csv"] ]} in
  let pieces :=
    split_pieces id reverse TRAIN_SPLIT TEST_SPLIT ["Chopin/Barcarolle"]
      ["Ravel/Ondine"; "Bach/Fugue/bwv_846"] in
  ("Ravel/Ondine/A01.csv" ∈ files_of piece_to_files (train_pieces pieces)
   ∨ "Ravel/Ondine/A01.csv" ∈ files_of piece_to_files (test_pieces pieces)
   ∨ "Ravel/Ondine/A01.csv" ∈ files_of piece_to_files (val_pieces pieces)) ↔
  ∃ p files,
    piece_to_files !! p = Some files ∧ "Ravel/Ondine/A01.csv" ∈ files ∧
    (p ∈ ["Chopin/Barcarolle"]
     ∨ ¬ ∃ q, q ∈ ["Chopin/Barcarolle"] ∧ id q = id p).
Proof.
  apply (listed_files id reverse TRAIN_SPLIT TEST_SPLIT
    ["Chopin/Barcarolle"] ["Ravel/Ondine"; "Bach/Fugue/bwv_846"]
    {[ "Ravel/Ondine" := ["Ravel/Ondine/A01.csv"];
       "Bach/Fugue/bwv_846" := ["Bach/Fugue/bwv_846/B02.csv"] ]}
    "Ravel/Ondine/A01.csv").
  - compute_done.
  - compute_done.
  - intros p. change (reverse ["Ravel/Ondine"; "Bach/Fugue/bwv_846"])
      with ["Bach/Fugue/bwv_846"; "Ravel/Ondine"].
    rewrite !elem_of_cons, elem_of_nil. split.
    + intros [->|[->|[]]]; compute_done.
    + intros [files Hp].
      apply lookup_insert_Some in Hp as [[<- _]|[_ Hp]]; [by right; left|].
      apply lookup_singleton_Some in Hp as [<- _]. by left.
Defined.

(** [int] of an integer times a fraction that is not negative. *)
Lemma int_of_float_fraction (n a : Z) (b : positive) :
  (0 ≤ n)%Z → (0 ≤ a)%Z →
  int_of_float (float_of_int n * Q2Qc (a # b)) = (n * a / Zpos b)%Z.
Proof.
  intros Hn Ha.
  assert (Hpos : (Q2Qc 0 ≤ float_of_int n * Q2Qc (a # b))%Qc).
  { apply Qcmult_nonneg_nonneg; [by apply float_of_int_nonneg|].
    unfold Qcle. cbn [this Q2Qc]. rewrite !Qred_correct.
    unfold Qle. simpl. lia. }
  unfold int_of_float.
  rewrite Z.quot_div_nonneg; [|revert Hpos; unfold Qcle, Qle; simpl; lia|lia].
  assert (Hfloor : ∀ q : Q, (Qnum q / Zpos (Qden q))%Z = Qfloor q)
    by (by intros []).
  rewrite Hfloor.
  transitivity (Qfloor (inject_Z n * (a # b))).
  - apply Qfloor_comp. unfold float_of_int. cbn [this Q2Qc Qcmult].
    by rewrite !Qred_correct.
  - unfold Qfloor. simpl. done.
Qed.

Lemma length_slice {A} (a : list A) (i j : Z) :
  (0 ≤ i ≤ j)%Z →
  length (slice a None (Some i)) = Nat.min (length a) (Z.to_nat i) ∧
  length (slice a (Some i) (Some j)) =
    Nat.min (length a) (Z.to_nat j) - Nat.min (length a) (Z.to_nat i) ∧
  length (slice a (Some j) None) = length a - Nat.min (length a) (Z.to_nat j).
Proof.
  intros Hij. unfold slice. simpl.
  rewrite !slice_index_nonneg by lia.
  rewrite !length_take, !length_drop. lia.
Qed.

(** X23. With the proportions 0.5 and 0.4 of the source, in exact
    arithmetic: of the [n] pieces left after the forced ones are taken out,
    [n // 2] are train pieces, [2 * n // 5] join the forced ones as test
    pieces, and the rest are validation pieces. *)
Theorem partition_sizes (normpath : string → string)
    (shuffle : list string → list string) (force keys : list string) :
  let pieces :=
    split_pieces normpath shuffle TRAIN_SPLIT TEST_SPLIT force keys in
  let n := Z.of_nat (length (filter
    (λ p, normpath p ∉ (list_to_set (normpath <$> force) : gset string))
    (shuffle keys))) in
  Z.of_nat (length (train_pieces pieces)) = (n / 2)%Z ∧
  Z.of_nat (length (test_pieces pieces)) =
    (Z.of_nat (length force) + 2 * n / 5)%Z ∧
  Z.of_nat (length (val_pieces pieces)) = (n - n / 2 - 2 * n / 5)%Z.
Proof.
  intros pieces n. subst pieces. unfold split_pieces.
  cbn [train_pieces test_pieces val_pieces]. fold n.
  assert (Hn : (0 ≤ n)%Z) by (unfold n; lia).
  assert (Htrain : int_of_float (float_of_int n * TRAIN_SPLIT) = (n / 2)%Z).
  { replace TRAIN_SPLIT with (Q2Qc (1 # 2)) by (by apply Qc_is_canon).
    rewrite int_of_float_fraction by lia. f_equal. lia. }
  assert (Htest : int_of_float (float_of_int n * TEST_SPLIT) = (2 * n / 5)%Z).
  { replace TEST_SPLIT with (Q2Qc (2 # 5)) by (by apply Qc_is_canon).
    rewrite int_of_float_fraction by lia. f_equal. lia. }
  rewrite Htrain, Htest.
  set (remaining := filter _ (shuffle keys)) in *.
  destruct (length_slice remaining (n / 2) (n / 2 + 2 * n / 5))
    as (H1 & H2 & H3).
  { split; [apply Z.div_pos; lia|].
    assert (0 ≤ 2 * n / 5)%Z by (apply Z.div_pos; lia). lia. }
  rewrite length_app, H1, H2, H3.
  assert (Hlen : Z.of_nat (length remaining) = n) by done.
  pose proof (Z.div_mod n 2). pose proof (Z.mod_pos_bound n 2).
  pose proof (Z.div_mod (2 * n) 5). pose proof (Z.mod_pos_bound (2 * n) 5).
  lia.
Qed.
